(** * TeamUp: the Firestore data-access module (services/firestore.ts)

    A shallow embedding of the team-membership, invitation, notification and
    messaging workflow of the data-access module, over a model of the document
    store it talks to.

    Conventions of the embedding
    - a Firestore collection is a finite map from document ids to records
      ([gmap string _]); [addDoc] picks an id that is not yet used in the
      collection, [updateDoc] fails on a missing document, [setDoc] and
      [deleteDoc] never fail;
    - an [async] function is a state-and-error computation [M A]: it receives
      the store, and returns either a value or the message of the thrown
      [Error], together with the store as it is at that point (there are no
      transactions: writes made before a throw stay); calls run one at a
      time, the interleaving of concurrent clients is not modelled;
    - [serverTimestamp()] fields ([createdAt], [updatedAt], ...) are not
      recorded: none of the functions modelled here reads them back;
    - the record types come from [@/types/firestore.types], which is not part
      of the sources: the records below carry the fields the module uses. *)

From Stdlib Require Import Ascii String.
From stdpp Require Import gmap strings stringmap list.

Local Open Scope string_scope.
Local Open Scope Z_scope.

(** ** JavaScript values *)

(** Truthiness of an optional string: [undefined], [null] and [''] are falsy. *)
Definition truthy (o : option string) : bool :=
  match o with
  | Some (String _ _) => true
  | _ => false
  end.

(** [o || d] on an optional string. *)
Definition or_else (o : option string) (d : string) : string :=
  match o with
  | Some (String a s) => String a s
  | _ => d
  end.

(** [o1 || o2] where both sides may be absent. *)
Definition or_opt (o1 o2 : option string) : option string :=
  if truthy o1 then o1 else o2.

Definition lower_ascii (c : ascii) : ascii :=
  let n := nat_of_ascii c in
  if (65 <=? n)%nat && (n <=? 90)%nat then ascii_of_nat (n + 32) else c.

Fixpoint toLowerCase (s : string) : string :=
  match s with
  | EmptyString => EmptyString
  | String c s' => String (lower_ascii c) (toLowerCase s')
  end.

(** ** Records of the collections *)

Record UserProfile := mkProfile {
  pr_fullName : option string;
  pr_username : option string;
  pr_email : option string;
  pr_avatar : option string;
  pr_primaryRole : option string;
  pr_teamId : option string;          (* null = None *)
  pr_isTeamLeader : bool
}.

(** [Partial<UserProfile>]: an absent key is [None]. *)
Record ProfilePatch := mkProfilePatch {
  pp_fullName : option (option string);
  pp_username : option string;
  pp_email : option (option string);
  pp_avatar : option (option string);
  pp_primaryRole : option (option string);
  pp_teamId : option (option string);
  pp_isTeamLeader : option bool
}.

(** The patch [{ teamId, isTeamLeader }]. *)
Definition team_patch (t : option string) (l : bool) : ProfilePatch :=
  mkProfilePatch None None None None None (Some t) (Some l).

Definition apply_profile_patch (d : ProfilePatch) (p : UserProfile) : UserProfile :=
  {| pr_fullName := default (pr_fullName p) (pp_fullName d);
     pr_username := match pp_username d with Some u => Some u | None => pr_username p end;
     pr_email := default (pr_email p) (pp_email d);
     pr_avatar := default (pr_avatar p) (pp_avatar d);
     pr_primaryRole := default (pr_primaryRole p) (pp_primaryRole d);
     pr_teamId := default (pr_teamId p) (pp_teamId d);
     pr_isTeamLeader := default (pr_isTeamLeader p) (pp_isTeamLeader d) |}.

Record TeamMemberEntry := mkEntry {
  m_userId : string;
  m_role : string;
  m_userName : string
}.

(** [Omit<Team, 'id' | 'createdAt' | 'members'>], the argument of [createTeam]. *)
Record TeamInput := mkTeamInput {
  ti_name : string;
  ti_description : string;
  ti_leaderId : string;
  ti_maxMembers : Z;
  ti_rolesNeeded : list string;
  ti_status : string
}.

Record Team := mkTeam {
  tm_name : string;
  tm_description : string;
  tm_leaderId : string;
  tm_leaderName : string;
  tm_maxMembers : Z;
  tm_rolesNeeded : list string;
  tm_status : string;
  tm_members : list TeamMemberEntry
}.

(** [Partial<Team>]. *)
Record TeamPatch := mkTeamPatch {
  tp_name : option string;
  tp_description : option string;
  tp_maxMembers : option Z;
  tp_rolesNeeded : option (list string);
  tp_status : option string;
  tp_members : option (list TeamMemberEntry)
}.

(** The patch [{ members }]. *)
Definition members_patch (l : list TeamMemberEntry) : TeamPatch :=
  mkTeamPatch None None None None None (Some l).

Definition apply_team_patch (d : TeamPatch) (t : Team) : Team :=
  {| tm_name := default (tm_name t) (tp_name d);
     tm_description := default (tm_description t) (tp_description d);
     tm_leaderId := tm_leaderId t;
     tm_leaderName := tm_leaderName t;
     tm_maxMembers := default (tm_maxMembers t) (tp_maxMembers d);
     tm_rolesNeeded := default (tm_rolesNeeded t) (tp_rolesNeeded d);
     tm_status := default (tm_status t) (tp_status d);
     tm_members := default (tm_members t) (tp_members d) |}.

(** A document of the [teamMembers] collection (kept "for backward
    compatibility" next to the embedded members list). *)
Record TeamMemberDoc := mkMemberDoc {
  tmd_teamId : string;
  tmd_userId : string;
  tmd_role : string
}.

Inductive InvitationType := invite | join_request.
Inductive InvitationStatus := pending | accepted | rejected.

#[global] Instance InvitationType_eq_dec : EqDecision InvitationType.
Proof. solve_decision. Defined.
#[global] Instance InvitationStatus_eq_dec : EqDecision InvitationStatus.
Proof. solve_decision. Defined.

(** The second argument of [respondToInvitation]: ['accepted' | 'rejected']. *)
Inductive Response := accept | reject.

Definition status_of (r : Response) : InvitationStatus :=
  match r with accept => accepted | reject => rejected end.

(** [Omit<Invitation, 'id' | 'status' | 'createdAt'>]. *)
Record InvitationInput := mkInvInput {
  ii_type : InvitationType;
  ii_fromUserId : string;
  ii_fromUserName : string;
  ii_toUserId : string;
  ii_toUserName : string;
  ii_teamId : string;
  ii_teamName : string;
  ii_message : option string
}.

Record Invitation := mkInvitation {
  inv_data : InvitationInput;
  inv_status : InvitationStatus
}.

Inductive NotificationType := INVITE | JOIN_REQUEST | ACCEPTED | REJECTED | MESSAGE.

(** [Omit<Notification, 'id' | 'read' | 'createdAt'>]. *)
Record NotificationInput := mkNotifInput {
  ni_toUserId : string;
  ni_fromUserId : string;
  ni_fromUserName : string;
  ni_type : NotificationType;
  ni_teamId : option string;
  ni_teamName : option string;
  ni_message : option string;
  ni_conversationId : option string
}.

Record Notification := mkNotification {
  nt_data : NotificationInput;
  nt_read : bool
}.

Inductive PostType := team_created | member_joined | user_post.

Record FeedPost := mkPost {
  fp_authorId : string;
  fp_authorName : string;
  fp_authorAvatar : option string;
  fp_authorRole : option string;
  fp_type : PostType;
  fp_title : string;
  fp_description : string;
  fp_teamId : option string;
  fp_teamName : option string;
  fp_rolesNeeded : option (list string);
  fp_tags : option (list string)
}.

Record Conversation := mkConversation {
  cv_participants : list string;
  cv_participantNames : gmap string string;     (* an object keyed by user id *)
  cv_participantAvatars : gmap string string;
  cv_lastMessage : option (string * string)     (* text, senderId *)
}.

Record Message := mkMessage {
  msg_conversationId : string;
  msg_participants : list string;
  msg_senderId : string;
  msg_senderName : string;
  msg_text : string;
  msg_read : bool
}.

(** ** The document store *)

Record Store := mkStore {
  configured : bool;                       (* isFirebaseConfigured() *)
  profiles : gmap string UserProfile;
  teams : gmap string Team;
  teamMembers : gmap string TeamMemberDoc;
  invitations : gmap string Invitation;
  notifications : gmap string Notification;
  posts : gmap string FeedPost;
  conversations : gmap string Conversation;
  messages : gmap string Message
}.

(** A collection handle: how to read and replace one table of the store. *)
Record Coll (A : Type) := mkColl {
  tbl : Store → gmap string A;
  with_tbl : gmap string A → Store → Store
}.
Arguments tbl {A} _ _.
Arguments with_tbl {A} _ _ _.

Definition profilesC : Coll UserProfile :=
  mkColl _ profiles (λ m s,
    mkStore (configured s) m (teams s) (teamMembers s) (invitations s)
            (notifications s) (posts s) (conversations s) (messages s)).
Definition teamsC : Coll Team :=
  mkColl _ teams (λ m s,
    mkStore (configured s) (profiles s) m (teamMembers s) (invitations s)
            (notifications s) (posts s) (conversations s) (messages s)).
Definition teamMembersC : Coll TeamMemberDoc :=
  mkColl _ teamMembers (λ m s,
    mkStore (configured s) (profiles s) (teams s) m (invitations s)
            (notifications s) (posts s) (conversations s) (messages s)).
Definition invitationsC : Coll Invitation :=
  mkColl _ invitations (λ m s,
    mkStore (configured s) (profiles s) (teams s) (teamMembers s) m
            (notifications s) (posts s) (conversations s) (messages s)).
Definition notificationsC : Coll Notification :=
  mkColl _ notifications (λ m s,
    mkStore (configured s) (profiles s) (teams s) (teamMembers s) (invitations s)
            m (posts s) (conversations s) (messages s)).
Definition postsC : Coll FeedPost :=
  mkColl _ posts (λ m s,
    mkStore (configured s) (profiles s) (teams s) (teamMembers s) (invitations s)
            (notifications s) m (conversations s) (messages s)).
Definition conversationsC : Coll Conversation :=
  mkColl _ conversations (λ m s,
    mkStore (configured s) (profiles s) (teams s) (teamMembers s) (invitations s)
            (notifications s) (posts s) m (messages s)).
Definition messagesC : Coll Message :=
  mkColl _ messages (λ m s,
    mkStore (configured s) (profiles s) (teams s) (teamMembers s) (invitations s)
            (notifications s) (posts s) (conversations s) m).

(** ** Computations: state plus thrown errors *)

Inductive Res (A : Type) :=
  | Ok (a : A)
  | Err (msg : string).
Arguments Ok {A} _.
Arguments Err {A} _.

Definition M (A : Type) : Type := Store → Res A * Store.

Definition ret {A} (a : A) : M A := λ s, (Ok a, s).
Definition throw {A} (msg : string) : M A := λ s, (Err msg, s).
Definition bind {A B} (c : M A) (k : A → M B) : M B :=
  λ s, match c s with
       | (Ok a, s') => k a s'
       | (Err e, s') => (Err e, s')
       end.

Notation "x <- c ;; k" := (bind c (λ x, k))
  (at level 100, c at next level, right associativity).
Notation "c ;; k" := (bind c (λ _, k))
  (at level 100, right associativity).

(** [for (const x of l) await f(x)]. *)
Fixpoint for_each {A} (l : list A) (f : A → M unit) : M unit :=
  match l with
  | [] => ret tt
  | x :: l' => f x ;; for_each l' f
  end.

(** The leading [if (!isFirebaseConfigured()) return v;]. *)
Definition guarded {A} (v : A) (c : M A) : M A :=
  λ s, if configured s then c s else (Ok v, s).

(** ** The Firestore calls *)

(** The id [addDoc] gives to a new document: one that the collection does not
    use yet. *)
Definition autoId {A} (m : gmap string A) : string := fresh_string "doc" m.

Definition getDoc {A} (c : Coll A) (id : string) : M (option A) :=
  λ s, (Ok (tbl c s !! id), s).

Definition setDoc {A} (c : Coll A) (id : string) (d : A) : M unit :=
  λ s, (Ok tt, with_tbl c (<[id := d]> (tbl c s)) s).

(** [updateDoc] rejects with [not-found] when the document does not exist. *)
Definition updateDoc {A} (c : Coll A) (id : string) (f : A → A) : M unit :=
  λ s, match tbl c s !! id with
       | Some d => (Ok tt, with_tbl c (<[id := f d]> (tbl c s)) s)
       | None => (Err "not-found", s)
       end.

Definition addDoc {A} (c : Coll A) (d : A) : M string :=
  λ s, let id := autoId (tbl c s) in
       (Ok id, with_tbl c (<[id := d]> (tbl c s)) s).

Definition deleteDoc {A} (c : Coll A) (id : string) : M unit :=
  λ s, (Ok tt, with_tbl c (delete id (tbl c s)) s).

(** [getDocs(query(collection, where ...))]: the documents that satisfy the
    filters, with their ids. *)
Definition getDocs {A} (c : Coll A) (P : string → A → bool) : M (list (string * A)) :=
  λ s, (Ok (filter (λ kv, P kv.1 kv.2 = true) (map_to_list (tbl c s))), s).

(** ** Profile functions *)

Definition is_empty (s : string) : bool :=
  match s with
  | EmptyString => true
  | String _ _ => false
  end.

Definition getProfile (userId : string) : M (option UserProfile) :=
  guarded None (getDoc profilesC userId).

Definition blank_profile : UserProfile :=
  mkProfile None None None None None None false.

Definition createProfile (userId : string) (data : ProfilePatch) : M unit :=
  guarded tt
    (setDoc profilesC userId
       (apply_profile_patch (team_patch None false)
          (apply_profile_patch data blank_profile))).

Definition updateProfile (userId : string) (data : ProfilePatch) : M unit :=
  guarded tt
    (if is_empty userId then throw "User ID is required for profile update"
     else
       let updateData :=
         match pp_username data with
         | Some u =>
             mkProfilePatch (pp_fullName data) (Some (toLowerCase u)) (pp_email data)
               (pp_avatar data) (pp_primaryRole data) (pp_teamId data)
               (pp_isTeamLeader data)
         | None => data
         end in
       updateDoc profilesC userId (apply_profile_patch updateData)).

(** ** Notifications and feed posts *)

Definition createNotification (data : NotificationInput) : M unit :=
  guarded tt (addDoc notificationsC (mkNotification data false) ;; ret tt).

Definition createFeedPost (data : FeedPost) : M string :=
  guarded "" (addDoc postsC data).

(** ** Team functions *)

Definition createTeam (data : TeamInput) : M string :=
  guarded ""
    (leaderProfile <- getProfile (ti_leaderId data) ;;
     let leaderName := or_else (leaderProfile ≫= pr_fullName) "User" in
     docId <- addDoc teamsC
       {| tm_name := ti_name data;
          tm_description := ti_description data;
          tm_leaderId := ti_leaderId data;
          tm_leaderName := leaderName;
          tm_maxMembers := ti_maxMembers data;
          tm_rolesNeeded := ti_rolesNeeded data;
          tm_status := ti_status data;
          tm_members := [mkEntry (ti_leaderId data) "Team Leader" leaderName] |} ;;
     updateProfile (ti_leaderId data) (team_patch (Some docId) true) ;;
     createFeedPost
       {| fp_authorId := ti_leaderId data;
          fp_authorName := leaderName;
          fp_authorAvatar := leaderProfile ≫= pr_avatar;
          fp_authorRole := leaderProfile ≫= pr_primaryRole;
          fp_type := team_created;
          fp_title := "ðŸš€ Created team: " +:+ ti_name data;
          fp_description := ti_description data;
          fp_teamId := Some docId;
          fp_teamName := Some (ti_name data);
          fp_rolesNeeded := Some (ti_rolesNeeded data);
          fp_tags := None |} ;;
     ret docId).

Definition getTeam (teamId : string) : M (option Team) :=
  guarded None (getDoc teamsC teamId).

Definition getUserTeams (userId : string) : M (list (string * Team)) :=
  guarded []
    (profile <- getProfile userId ;;
     match profile ≫= pr_teamId with
     | Some (String a t) =>
         team <- getTeam (String a t) ;;
         ret (match team with Some tm => [(String a t, tm)] | None => [] end)
     | _ => ret []
     end).

Definition updateTeam (teamId : string) (data : TeamPatch) : M unit :=
  guarded tt (updateDoc teamsC teamId (apply_team_patch data)).

(** ** Team member functions *)

(** [team.members.length >= team.maxMembers] *)
Definition team_full (team : Team) : bool :=
  tm_maxMembers team <=? Z.of_nat (length (tm_members team)).

Definition addTeamMember (teamId userId role : string) : M unit :=
  guarded tt
    (profile <- getProfile userId ;;
     if truthy (profile ≫= pr_teamId) then throw "User is already in a team"
     else
       team <- getTeam teamId ;;
       match team with
       | None => throw "Team not found"
       | Some team =>
           if team_full team then throw "Team is full"
           else
             let userName := or_else (profile ≫= pr_fullName) "User" in
             let updatedMembers := (tm_members team ++ [mkEntry userId role userName])%list in
             updateTeam teamId (members_patch updatedMembers) ;;
             updateProfile userId (team_patch (Some teamId) false) ;;
             createFeedPost
               {| fp_authorId := userId;
                  fp_authorName := userName;
                  fp_authorAvatar := profile ≫= pr_avatar;
                  fp_authorRole := profile ≫= pr_primaryRole;
                  fp_type := member_joined;
                  fp_title := "ðŸŽ‰ Joined team: " +:+ tm_name team;
                  fp_description := userName +:+ " joined as " +:+ role;
                  fp_teamId := Some teamId;
                  fp_teamName := Some (tm_name team);
                  fp_rolesNeeded := None;
                  fp_tags := None |} ;;
             addDoc teamMembersC (mkMemberDoc teamId userId role) ;;
             ret tt
       end).

Definition removeTeamMember (teamId userId : string) : M unit :=
  guarded tt
    (team <- getTeam teamId ;;
     match team with
     | None => ret tt
     | Some team =>
         let updatedMembers :=
           filter (λ m, m_userId m ≠ userId) (tm_members team) in
         updateTeam teamId (members_patch updatedMembers) ;;
         updateProfile userId (team_patch None false) ;;
         snapshot <- getDocs teamMembersC
           (λ _ d, bool_decide (tmd_teamId d = teamId)
                   && bool_decide (tmd_userId d = userId)) ;;
         for_each snapshot (λ d, deleteDoc teamMembersC d.1)
     end).

Definition terminateTeam (teamId leaderId : string) : M unit :=
  guarded tt
    (team <- getTeam teamId ;;
     match team with
     | None => throw "Team not found"
     | Some team =>
         if bool_decide (tm_leaderId team ≠ leaderId)
         then throw "Only team leader can terminate the team"
         else
           for_each (tm_members team)
             (λ member, updateProfile (m_userId member) (team_patch None false)) ;;
           membersSnapshot <- getDocs teamMembersC
             (λ _ d, bool_decide (tmd_teamId d = teamId)) ;;
           for_each membersSnapshot (λ d, deleteDoc teamMembersC d.1) ;;
           invitationsSnapshot <- getDocs invitationsC
             (λ _ i, bool_decide (ii_teamId (inv_data i) = teamId)) ;;
           for_each invitationsSnapshot (λ d, deleteDoc invitationsC d.1) ;;
           deleteDoc teamsC teamId
     end).

(** ** Invitation functions *)

Definition is_join_request (t : InvitationType) : bool :=
  match t with join_request => true | invite => false end.

(** The query of [sendInvitation]: same sender, same team, still pending. *)
Definition pending_from (fromUserId teamId : string) (i : Invitation) : bool :=
  bool_decide (ii_fromUserId (inv_data i) = fromUserId)
  && bool_decide (ii_teamId (inv_data i) = teamId)
  && bool_decide (inv_status i = pending).

Definition sendInvitation (data : InvitationInput) : M unit :=
  guarded tt
    (let isJoinRequest := is_join_request (ii_type data) in
     (if negb isJoinRequest then
        targetProfile <- getProfile (ii_toUserId data) ;;
        if truthy (targetProfile ≫= pr_teamId)
        then throw "User is already in a team" else ret tt
      else ret tt) ;;
     (if isJoinRequest then
        senderProfile <- getProfile (ii_fromUserId data) ;;
        if truthy (senderProfile ≫= pr_teamId)
        then throw "You are already in a team" else ret tt
      else ret tt) ;;
     existingSnap <- getDocs invitationsC
       (λ _ i, pending_from (ii_fromUserId data) (ii_teamId data) i) ;;
     match existingSnap with
     | _ :: _ =>
         throw (if isJoinRequest then "Join request already sent"
                else "Invitation already sent")
     | [] =>
         addDoc invitationsC (mkInvitation data pending) ;;
         let notifyUserId :=
           if isJoinRequest then ii_toUserId data else ii_toUserId data in
         createNotification
           {| ni_toUserId := notifyUserId;
              ni_fromUserId := ii_fromUserId data;
              ni_fromUserName := ii_fromUserName data;
              ni_type := if isJoinRequest then JOIN_REQUEST else INVITE;
              ni_teamId := Some (ii_teamId data);
              ni_teamName := Some (ii_teamName data);
              ni_message := ii_message data;
              ni_conversationId := None |}
     end).

Definition set_status (st : InvitationStatus) (i : Invitation) : Invitation :=
  mkInvitation (inv_data i) st.

(** [respondToInvitation(invitationId, status, teamId?, userId?, role?)]: the
    optional [teamId] and [userId] are never read. *)
Definition respondToInvitation (invitationId : string) (status : Response)
    (teamId userId role : option string) : M unit :=
  guarded tt
    (invSnap <- getDoc invitationsC invitationId ;;
     match invSnap with
     | None => throw "Invitation not found"
     | Some invitation =>
         let inv := inv_data invitation in
         let isJoinRequest := is_join_request (ii_type inv) in
         let joiningUserId :=
           if isJoinRequest then ii_fromUserId inv else ii_toUserId inv in
         let joiningUserName :=
           if isJoinRequest then ii_fromUserName inv else ii_toUserName inv in
         (match status with
          | accept =>
              profile <- getProfile joiningUserId ;;
              if truthy (profile ≫= pr_teamId) then throw "User is already in a team"
              else
                team <- getTeam (ii_teamId inv) ;;
                match team with
                | None => throw "Team no longer exists"
                | Some team =>
                    if team_full team then throw "Team is full" else ret tt
                end
          | reject => ret tt
          end) ;;
         updateDoc invitationsC invitationId (set_status (status_of status)) ;;
         let notifyUserId :=
           if isJoinRequest then ii_fromUserId inv else ii_fromUserId inv in
         let responderId :=
           if isJoinRequest then ii_toUserId inv else ii_toUserId inv in
         match status with
         | accept =>
             joiningProfile <- getProfile joiningUserId ;;
             let joiningRole :=
               or_else (or_opt (joiningProfile ≫= pr_primaryRole) role) "Member" in
             addTeamMember (ii_teamId inv) joiningUserId joiningRole ;;
             responderProfile <- getProfile responderId ;;
             createNotification
               {| ni_toUserId := notifyUserId;
                  ni_fromUserId := responderId;
                  ni_fromUserName := or_else (responderProfile ≫= pr_fullName) "User";
                  ni_type := ACCEPTED;
                  ni_teamId := Some (ii_teamId inv);
                  ni_teamName := Some (ii_teamName inv);
                  ni_message := Some
                    (if isJoinRequest
                     then "Your request to join " +:+ ii_teamName inv +:+ " was accepted!"
                     else joiningUserName +:+ " accepted your invitation to join "
                          +:+ ii_teamName inv);
                  ni_conversationId := None |}
         | reject =>
             responderProfile <- getProfile responderId ;;
             createNotification
               {| ni_toUserId := notifyUserId;
                  ni_fromUserId := responderId;
                  ni_fromUserName := or_else (responderProfile ≫= pr_fullName) "User";
                  ni_type := REJECTED;
                  ni_teamId := Some (ii_teamId inv);
                  ni_teamName := Some (ii_teamName inv);
                  ni_message := Some
                    (if isJoinRequest
                     then "Your request to join " +:+ ii_teamName inv +:+ " was declined"
                     else ii_toUserName inv +:+ " declined your invitation to join "
                          +:+ ii_teamName inv);
                  ni_conversationId := None |}
         end
     end).

(** ** Stats *)

Definition getAvailableUsersCount : M nat :=
  guarded 0%nat
    (snapshot <- getDocs profilesC (λ _ p, bool_decide (pr_teamId p = None)) ;;
     ret (length snapshot)).

(** ** Messaging *)

Definition includes (x : string) (l : list string) : bool := bool_decide (x ∈ l).

Definition dicebear (seed : string) : string :=
  "https://api.dicebear.com/7.x/initials/svg?seed=" +:+ seed.

Definition getOrCreateConversation (user1Id user2Id : string) : M string :=
  guarded ""
    (snapshot <- getDocs conversationsC
       (λ _ c, includes user1Id (cv_participants c)) ;;
     match List.find (λ d, includes user2Id (cv_participants d.2)) snapshot with
     | Some existing => ret existing.1
     | None =>
         profile1 <- getProfile user1Id ;;
         profile2 <- getProfile user2Id ;;
         let name1 := or_else (profile1 ≫= pr_fullName) "User" in
         let name2 := or_else (profile2 ≫= pr_fullName) "User" in
         addDoc conversationsC
           {| cv_participants := [user1Id; user2Id];
              cv_participantNames := <[user2Id := name2]> {[user1Id := name1]};
              cv_participantAvatars :=
                <[user2Id := or_else (profile2 ≫= pr_avatar) (dicebear name2)]>
                  {[user1Id := or_else (profile1 ≫= pr_avatar) (dicebear name1)]};
              cv_lastMessage := None |}
     end).

(** [text.length > 50 ? text.substring(0, 50) + '...' : text] *)
Definition preview (text : string) : string :=
  if (50 <? String.length text)%nat then substring 0 50 text +:+ "..." else text.

Definition set_lastMessage (text senderId : string) (c : Conversation) : Conversation :=
  mkConversation (cv_participants c) (cv_participantNames c)
    (cv_participantAvatars c) (Some (text, senderId)).

Definition sendMessage (conversationId senderId text : string) : M string :=
  guarded ""
    (senderProfile <- getProfile senderId ;;
     convSnap <- getDoc conversationsC conversationId ;;
     match convSnap with
     | None => throw "Conversation not found"
     | Some conversationData =>
         let participants := cv_participants conversationData in
         let senderName := or_else (senderProfile ≫= pr_fullName) "User" in
         messageId <- addDoc messagesC
           (mkMessage conversationId participants senderId senderName text false) ;;
         updateDoc conversationsC conversationId (set_lastMessage text senderId) ;;
         (match List.find (λ id, bool_decide (id ≠ senderId)) participants with
          | Some (String a r) =>
              createNotification
                {| ni_toUserId := String a r;
                   ni_fromUserId := senderId;
                   ni_fromUserName := senderName;
                   ni_type := MESSAGE;
                   ni_teamId := None;
                   ni_teamName := None;
                   ni_message := Some (preview text);
                   ni_conversationId := Some conversationId |}
          | _ => ret tt
          end) ;;
         ret messageId
     end).

(** ** Account functions *)

Definition isUsernameAvailable (username : string) (excludeUserId : option string)
    : M bool :=
  guarded true
    (if is_empty username then ret false
     else
       let normalizedUsername := toLowerCase username in
       snapshot <- getDocs profilesC
         (λ _ p, bool_decide (pr_username p = Some normalizedUsername)) ;;
       match snapshot with
       | [] => ret true
       | _ :: _ =>
           if truthy excludeUserId
           then ret (forallb (λ d, bool_decide (Some d.1 = excludeUserId)) snapshot)
           else ret false
       end).

(** [deleteUserCompletely] starts with the queries: it has no
    [isFirebaseConfigured()] test. *)
Definition deleteUserCompletely (userId : string) : M unit :=
  profileSnap <- getDocs profilesC (λ id _, bool_decide (id = userId)) ;;
  match head profileSnap with
  | None => ret tt
  | Some (_, profile) =>
      (match pr_teamId profile with
       | Some (String a t) =>
           let tid := String a t in
           teamSnap <- getDocs teamsC (λ id _, bool_decide (id = tid)) ;;
           match head teamSnap with
           | Some (_, team) =>
               if bool_decide (tm_leaderId team = userId)
               then deleteDoc teamsC tid
               else
                 updateDoc teamsC tid
                   (apply_team_patch
                      (members_patch
                         (filter (λ m, m_userId m ≠ userId) (tm_members team))))
           | None =>
               throw "TypeError: Cannot read properties of undefined (reading 'members')"
           end
       | _ => ret tt
       end) ;;
      postsSnap <- getDocs postsC (λ _ p, bool_decide (fp_authorId p = userId)) ;;
      for_each postsSnap (λ d, deleteDoc postsC d.1) ;;
      deleteDoc profilesC userId
  end.


(** * The rest of the data-access module

    The functions below complete the model for the collections of the store:
    the discovery queries, the views on invitations, notifications, posts and
    messages, and the username functions. Queries with [orderBy] on a
    timestamp and the collections that the store does not hold (tasks, logs,
    skill verifications) are left out. *)

(** ** Discover people *)

(** [user.id !== excludeUserId], where [excludeUserId] may be undefined. *)
Definition not_excluded (excludeUserId : option string) (d : string * UserProfile)
    : Prop :=
  Some d.1 ≠ excludeUserId.

Definition getAvailableUsers (excludeUserId : option string)
    : M (list (string * UserProfile)) :=
  guarded []
    (snapshot <- getDocs profilesC (λ _ p, bool_decide (pr_teamId p = None)) ;;
     ret (filter (not_excluded excludeUserId) snapshot)).

Definition getAvailableUsersByRole (role : string) (excludeUserId : option string)
    : M (list (string * UserProfile)) :=
  guarded []
    (snapshot <- getDocs profilesC
       (λ _ p, bool_decide (pr_teamId p = None)
               && bool_decide (pr_primaryRole p = Some role)) ;;
     ret (filter (not_excluded excludeUserId) snapshot)).

(** [roles.add(x)] on a [Set] that keeps insertion order. *)
Definition set_add (x : string) (roles : list string) : list string :=
  if bool_decide (x ∈ roles) then roles else (roles ++ [x])%list.

Definition getAvailableRoles : M (list string) :=
  guarded []
    (snapshot <- getDocs profilesC (λ _ _, true) ;;
     ret (foldl (λ roles d,
                   match pr_primaryRole d.2 with
                   | Some (String a r) => set_add (String a r) roles
                   | _ => roles
                   end) [] snapshot)).

Definition getAvailableTeamsCount : M nat :=
  guarded 0%nat
    (snapshot <- getDocs teamsC (λ _ t, bool_decide (tm_status t = "forming")) ;;
     ret (length snapshot)).

(** ** Views on invitations *)

Definition getIncomingInvitations (userId : string) : M (list (string * Invitation)) :=
  guarded []
    (getDocs invitationsC
       (λ _ i, bool_decide (ii_toUserId (inv_data i) = userId)
               && bool_decide (inv_status i = pending))).

Definition getOutgoingInvitations (userId : string) : M (list (string * Invitation)) :=
  guarded []
    (getDocs invitationsC (λ _ i, bool_decide (ii_fromUserId (inv_data i) = userId))).

(** ** Reading notifications *)

Definition mark_read (n : Notification) : Notification :=
  mkNotification (nt_data n) true.

(** The query of the unread notifications of a user. *)
Definition unread_for (userId : string) (n : Notification) : bool :=
  bool_decide (ni_toUserId (nt_data n) = userId) && bool_decide (nt_read n = false).

Definition markNotificationAsRead (notificationId : string) : M unit :=
  guarded tt (updateDoc notificationsC notificationId mark_read).

Definition markAllNotificationsAsRead (userId : string) : M unit :=
  guarded tt
    (snapshot <- getDocs notificationsC (λ _ n, unread_for userId n) ;;
     for_each snapshot (λ d, updateDoc notificationsC d.1 mark_read)).

Definition getUnreadNotificationCount (userId : string) : M nat :=
  guarded 0%nat
    (snapshot <- getDocs notificationsC (λ _ n, unread_for userId n) ;;
     ret (length snapshot)).

(** ** User posts *)

(** The argument [{ title, description, tags? }] of [createUserPost] and
    [updatePost]. *)
Record PostInput := mkPostInput {
  pi_title : string;
  pi_description : string;
  pi_tags : option (list string)
}.

Definition createUserPost (userId : string) (data : PostInput) : M string :=
  guarded ""
    (profile <- getProfile userId ;;
     addDoc postsC
       {| fp_authorId := userId;
          fp_authorName := or_else (profile ≫= pr_fullName) "User";
          fp_authorAvatar := profile ≫= pr_avatar;
          fp_authorRole := profile ≫= pr_primaryRole;
          fp_type := user_post;
          fp_title := pi_title data;
          fp_description := pi_description data;
          fp_teamId := None;
          fp_teamName := None;
          fp_rolesNeeded := None;
          fp_tags := Some (default [] (pi_tags data)) |}).

Definition edit_post (data : PostInput) (p : FeedPost) : FeedPost :=
  {| fp_authorId := fp_authorId p;
     fp_authorName := fp_authorName p;
     fp_authorAvatar := fp_authorAvatar p;
     fp_authorRole := fp_authorRole p;
     fp_type := fp_type p;
     fp_title := pi_title data;
     fp_description := pi_description data;
     fp_teamId := fp_teamId p;
     fp_teamName := fp_teamName p;
     fp_rolesNeeded := fp_rolesNeeded p;
     fp_tags := Some (default [] (pi_tags data)) |}.

Definition updatePost (postId : string) (data : PostInput) : M unit :=
  guarded tt (updateDoc postsC postId (edit_post data)).

Definition deletePost (postId : string) : M unit :=
  guarded tt (deleteDoc postsC postId).

(** ** Reading messages *)

Definition mark_message_read (m : Message) : Message :=
  mkMessage (msg_conversationId m) (msg_participants m) (msg_senderId m)
    (msg_senderName m) (msg_text m) true.

(** The query of the unread messages of a conversation. *)
Definition unread_in (conversationId : string) (m : Message) : bool :=
  bool_decide (msg_conversationId m = conversationId)
  && bool_decide (msg_read m = false).

Definition markMessagesAsRead (conversationId userId : string) : M unit :=
  guarded tt
    (snapshot <- getDocs messagesC (λ _ m, unread_in conversationId m) ;;
     let updates := filter (λ d, msg_senderId d.2 ≠ userId) snapshot in
     for_each updates (λ d, updateDoc messagesC d.1 mark_message_read)).

(** The loop of [getUnreadMessageCount]: [totalUnread] is the accumulator. *)
Fixpoint count_unread (userId : string) (conversationIds : list string)
    (totalUnread : nat) : M nat :=
  match conversationIds with
  | [] => ret totalUnread
  | convId :: rest =>
      msgSnapshot <- getDocs messagesC (λ _ m, unread_in convId m) ;;
      count_unread userId rest
        (totalUnread
         + length (filter (λ d, msg_senderId d.2 ≠ userId) msgSnapshot))%nat
  end.

Definition getUnreadMessageCount (userId : string) : M nat :=
  guarded 0%nat
    (convSnapshot <- getDocs conversationsC
       (λ _ c, includes userId (cv_participants c)) ;;
     let conversationIds := fst <$> convSnapshot in
     match conversationIds with
     | [] => ret 0%nat
     | _ :: _ => count_unread userId conversationIds 0%nat
     end).

(** ** Usernames *)

(** [s.replace(c, '')] with a one-character pattern: the first occurrence
    goes. *)
Fixpoint remove_first (c : ascii) (s : string) : string :=
  match s with
  | EmptyString => EmptyString
  | String a s' => if Ascii.eqb a c then s' else String a (remove_first c s')
  end.

(** [email || null] *)
Definition or_null (o : option string) : option string :=
  if truthy o then o else None.

Definition getUserEmailByUsername (username : string) : M (option string) :=
  guarded None
    (let normalizedUsername := remove_first "@" (toLowerCase username) in
     snapshot <- getDocs profilesC
       (λ _ p, bool_decide (pr_username p = Some normalizedUsername)) ;;
     match snapshot with
     | [] => ret None
     | d :: _ => ret (or_null (pr_email d.2))
     end).

Definition getProfileByUsername (username : string)
    : M (option (string * UserProfile)) :=
  guarded None
    (let normalized := toLowerCase username in
     snapshot <- getDocs profilesC
       (λ _ p, bool_decide (pr_username p = Some normalized)) ;;
     match snapshot with
     | [] => ret None
     | d :: _ => ret (Some d)
     end).

(** The result [{ success, error? }] of [updateUsername]. *)
Record UsernameResult := mkUsernameResult {
  ur_success : bool;
  ur_error : option string
}.

Definition set_username (u : string) (p : UserProfile) : UserProfile :=
  mkProfile (pr_fullName p) (Some u) (pr_email p) (pr_avatar p)
    (pr_primaryRole p) (pr_teamId p) (pr_isTeamLeader p).

(** [isValidUsername] comes from [../utils/username], which is not part of the
    sources: the format test is a parameter of the function. *)
Definition updateUsername (isValidUsername : string → bool)
    (userId newUsername : string) : M UsernameResult :=
  guarded (mkUsernameResult false (Some "Firebase not configured"))
    (let normalized := toLowerCase newUsername in
     if negb (isValidUsername normalized)
     then ret (mkUsernameResult false (Some "Invalid username format"))
     else
       available <- isUsernameAvailable normalized (Some userId) ;;
       if negb available
       then ret (mkUsernameResult false (Some "Username is already taken"))
       else
         updateDoc profilesC userId (set_username normalized) ;;
         ret (mkUsernameResult true None)).

(** ** Team members with their profiles *)

(** A row of [getTeamMembers] ([joinedAt], a copy of the team's timestamp, is
    not recorded). *)
Record TeamMemberRow := mkRow {
  row_id : string;
  row_teamId : string;
  row_userId : string;
  row_role : string;
  row_profile : option UserProfile
}.

(** [Promise.all(l.map(f))] *)
Fixpoint map_all {A B} (f : A → M B) (l : list A) : M (list B) :=
  match l with
  | [] => ret []
  | x :: l' => y <- f x ;; ys <- map_all f l' ;; ret (y :: ys)
  end.

Definition getTeamMembers (teamId : string) : M (list TeamMemberRow) :=
  guarded []
    (team <- getTeam teamId ;;
     match team with
     | None => ret []
     | Some team =>
         map_all
           (λ member,
              profile <- getProfile (m_userId member) ;;
              ret (mkRow (teamId +:+ "-" +:+ m_userId member) teamId
                     (m_userId member) (m_role member) profile))
           (tm_members team)
     end).

(** * Invariants of the membership and invitation workflow *)

(** The user ids listed in a team's embedded members array. *)
Definition member_ids (team : Team) : list string := m_userId <$> tm_members team.

(** Every user's [teamId] is null or references exactly one team document. *)
Definition one_team (s : Store) : Prop :=
  ∀ u p, profiles s !! u = Some p →
    pr_teamId p = None ∨
    exists ! t, pr_teamId p = Some t ∧ is_Some (teams s !! t).

(** The same link, in the form the operations maintain: the referenced team
    exists and lists the user among its members. *)
Definition team_link (s : Store) : Prop :=
  ∀ u p t, profiles s !! u = Some p → pr_teamId p = Some t →
    ∃ team, teams s !! t = Some team ∧ u ∈ member_ids team.

(** Firestore document ids are non-empty. *)
Definition valid_ids (s : Store) : Prop :=
  profiles s !! "" = None ∧ teams s !! "" = None.

(** The membership invariant: [one_team], kept together with what makes it
    inductive. *)
Definition membership_inv (s : Store) : Prop :=
  valid_ids s ∧ team_link s ∧ one_team s.

(** The stores the application can reach from an empty database when
    profiles are created by [createProfile] and memberships change through the
    team and invitation functions only. *)
Inductive reachable : Store → Prop :=
  | reach_empty (c : bool) :
      reachable (mkStore c ∅ ∅ ∅ ∅ ∅ ∅ ∅ ∅)
  | reach_createProfile s userId data :
      reachable s → userId ≠ "" → reachable (createProfile userId data s).2
  | reach_createTeam s data :
      reachable s → reachable (createTeam data s).2
  | reach_addTeamMember s teamId userId role :
      reachable s → reachable (addTeamMember teamId userId role s).2
  | reach_removeTeamMember s teamId userId :
      reachable s → reachable (removeTeamMember teamId userId s).2
  | reach_terminateTeam s teamId leaderId :
      reachable s → reachable (terminateTeam teamId leaderId s).2
  | reach_sendInvitation s data :
      reachable s → reachable (sendInvitation data s).2
  | reach_respondToInvitation s invitationId status teamId userId role :
      reachable s →
      reachable (respondToInvitation invitationId status teamId userId role s).2.

(** No team holds more members than its [maxMembers]. *)
Definition within_capacity (team : Team) : Prop :=
  Z.of_nat (length (tm_members team)) <= tm_maxMembers team.

Definition capacity_inv (s : Store) : Prop :=
  ∀ t team, teams s !! t = Some team → within_capacity team.

(** At most one pending invitation per (sender, team) pair. *)
Definition unique_pending (s : Store) : Prop :=
  ∀ id1 id2 i1 i2,
    invitations s !! id1 = Some i1 → invitations s !! id2 = Some i2 →
    inv_status i1 = pending → inv_status i2 = pending →
    ii_fromUserId (inv_data i1) = ii_fromUserId (inv_data i2) →
    ii_teamId (inv_data i1) = ii_teamId (inv_data i2) →
    id1 = id2.

(** The user an accepted invitation brings into the team. *)
Definition joining_user (i : InvitationInput) : string :=
  if is_join_request (ii_type i) then ii_fromUserId i else ii_toUserId i.

(** The user whose membership [sendInvitation] checks first. *)
Definition prospective_joiner (i : InvitationInput) : string :=
  if is_join_request (ii_type i) then ii_fromUserId i else ii_toUserId i.

(** A team after the user joined it with the given role: one more entry at
    the end of the members list. *)
Definition joined_team (userId role : string) (p : UserProfile) (team : Team) : Team :=
  apply_team_patch
    (members_patch
       (tm_members team ++ [mkEntry userId role (or_else (pr_fullName p) "User")]))
    team.

(** The role an accepted invitation gives:
    [joiningProfile?.primaryRole || role || 'Member']. *)
Definition joining_role (p : option UserProfile) (role : option string) : string :=
  or_else (or_opt (p ≫= pr_primaryRole) role) "Member".


(** The messages and the notification of [sendInvitation]. *)
Definition already_in_team_message (t : InvitationType) : string :=
  if is_join_request t then "You are already in a team" else "User is already in a team".

Definition already_sent_message (t : InvitationType) : string :=
  if is_join_request t then "Join request already sent" else "Invitation already sent".

Definition invitation_notice (data : InvitationInput) : NotificationInput :=
  {| ni_toUserId := ii_toUserId data;
     ni_fromUserId := ii_fromUserId data;
     ni_fromUserName := ii_fromUserName data;
     ni_type := if is_join_request (ii_type data) then JOIN_REQUEST else INVITE;
     ni_teamId := Some (ii_teamId data);
     ni_teamName := Some (ii_teamName data);
     ni_message := ii_message data;
     ni_conversationId := None |}.


(** A conversation between the two users, as [getOrCreateConversation] looks
    for it. *)
Definition is_pair_conversation (a b : string) (c : Conversation) : Prop :=
  a ∈ cv_participants c ∧ b ∈ cv_participants c.

(** The document [getOrCreateConversation] adds when it finds none. *)
Definition new_conversation (s : Store) (user1Id user2Id : string) : Conversation :=
  let name1 := or_else (profiles s !! user1Id ≫= pr_fullName) "User" in
  let name2 := or_else (profiles s !! user2Id ≫= pr_fullName) "User" in
  {| cv_participants := [user1Id; user2Id];
     cv_participantNames := <[user2Id := name2]> {[user1Id := name1]};
     cv_participantAvatars :=
       <[user2Id := or_else (profiles s !! user2Id ≫= pr_avatar) (dicebear name2)]>
         {[user1Id := or_else (profiles s !! user1Id ≫= pr_avatar) (dicebear name1)]};
     cv_lastMessage := None |}.

(** The conversations of a pair of users. *)
Definition pair_conversations (a b : string) (s : Store) : gmap string Conversation :=
  filter (λ kv, a ∈ cv_participants kv.2 ∧ b ∈ cv_participants kv.2) (conversations s).

(** * Example stores *)

Module Demo.
Definition alice : UserProfile :=
  mkProfile (Some "Alice") (Some "alice") None None (Some "Developer") None false.
Definition bob : UserProfile :=
  mkProfile (Some "Bob") (Some "bob") None None None None false.
Definition carol : UserProfile :=
  mkProfile (Some "Carol") (Some "carol") None None (Some "Designer") (Some "t1") true.
Definition dave : UserProfile :=
  mkProfile (Some "Dave") None None None None (Some "t2") true.

(** Carol leads a team with a free seat, Dave a team that is full. *)
Definition team1 : Team :=
  mkTeam "Rockets" "A demo team" "carol" "Carol" 3 ["Developer"] "forming"
    [mkEntry "carol" "Team Leader" "Carol"].
Definition team2 : Team :=
  mkTeam "Solo" "A full team" "dave" "Dave" 1 [] "forming"
    [mkEntry "dave" "Team Leader" "Dave"].

(** Carol invites Alice to her team; Bob asks to join Dave's full team. *)
Definition invite1 : InvitationInput :=
  mkInvInput invite "carol" "Carol" "alice" "Alice" "t1" "Rockets" None.
Definition request2 : InvitationInput :=
  mkInvInput join_request "bob" "Bob" "dave" "Dave" "t2" "Solo" (Some "let me in").

Definition chat : Conversation :=
  mkConversation ["alice"; "bob"] (<["bob" := "Bob"]> {["alice" := "Alice"]}) ∅ None.

Definition store : Store :=
  {| configured := true;
     profiles := <["alice" := alice]> (<["bob" := bob]>
                   (<["carol" := carol]> {["dave" := dave]}));
     teams := <["t1" := team1]> {["t2" := team2]};
     teamMembers := ∅;
     invitations := <["i1" := mkInvitation invite1 pending]>
                      {["i2" := mkInvitation request2 pending]};
     notifications := ∅;
     posts := ∅;
     conversations := {["c1" := chat]};
     messages := ∅ |}.

(** The same documents behind an unconfigured Firebase. *)
Definition offline : Store :=
  {| configured := false;
     profiles := profiles store; teams := teams store;
     teamMembers := ∅; invitations := invitations store;
     notifications := ∅; posts := ∅;
     conversations := conversations store; messages := ∅ |}.

(** Dave invites Carol, who leads a team; Carol asks to join Dave's team;
    Alice asks to join Carol's team. *)
Definition invite_carol : InvitationInput :=
  mkInvInput invite "dave" "Dave" "carol" "Carol" "t2" "Solo" None.
Definition request_carol : InvitationInput :=
  mkInvInput join_request "carol" "Carol" "dave" "Dave" "t2" "Solo" None.
Definition request_alice : InvitationInput :=
  mkInvInput join_request "alice" "Alice" "carol" "Carol" "t1" "Rockets" None.

Definition new_team : TeamInput :=
  mkTeamInput "Comets" "Another team" "alice" 4 ["Designer"] "forming".
End Demo.
(** ** The calls that write to the database

    One constructor per writing function of the model, with the arguments of
    the function; [store_after] is the database the call leaves, whether it
    returns or throws. *)
Inductive Call :=
  | CreateProfile (userId : string) (data : ProfilePatch)
  | UpdateProfile (userId : string) (data : ProfilePatch)
  | CreateNotification (data : NotificationInput)
  | CreateFeedPost (data : FeedPost)
  | CreateTeam (data : TeamInput)
  | UpdateTeam (teamId : string) (data : TeamPatch)
  | AddTeamMember (teamId userId role : string)
  | RemoveTeamMember (teamId userId : string)
  | TerminateTeam (teamId leaderId : string)
  | SendInvitation (data : InvitationInput)
  | RespondToInvitation (invitationId : string) (status : Response)
      (teamId userId role : option string)
  | GetOrCreateConversation (user1Id user2Id : string)
  | SendMessage (conversationId senderId text : string)
  | DeleteUserCompletely (userId : string).

Definition store_after (c : Call) (s : Store) : Store :=
  match c with
  | CreateProfile userId data => (createProfile userId data s).2
  | UpdateProfile userId data => (updateProfile userId data s).2
  | CreateNotification data => (createNotification data s).2
  | CreateFeedPost data => (createFeedPost data s).2
  | CreateTeam data => (createTeam data s).2
  | UpdateTeam teamId data => (updateTeam teamId data s).2
  | AddTeamMember teamId userId role => (addTeamMember teamId userId role s).2
  | RemoveTeamMember teamId userId => (removeTeamMember teamId userId s).2
  | TerminateTeam teamId leaderId => (terminateTeam teamId leaderId s).2
  | SendInvitation data => (sendInvitation data s).2
  | RespondToInvitation invitationId status teamId userId role =>
      (respondToInvitation invitationId status teamId userId role s).2
  | GetOrCreateConversation user1Id user2Id =>
      (getOrCreateConversation user1Id user2Id s).2
  | SendMessage conversationId senderId text =>
      (sendMessage conversationId senderId text s).2
  | DeleteUserCompletely userId => (deleteUserCompletely userId s).2
  end.

(** The database after a sequence of calls, the first of the list first. *)
Definition store_after_all (cs : list Call) (s : Store) : Store :=
  foldl (λ s' c, store_after c s') s cs.

(** The two calls that write [maxMembers] or a whole members list as given:
    [createTeam] is to ask for one seat at least (the leader takes it), and a
    patch of [updateTeam] is to leave [members] and [maxMembers] alone. *)
Definition respects_capacity (c : Call) : Prop :=
  match c with
  | CreateTeam data => 1 <= ti_maxMembers data
  | UpdateTeam _ data => tp_members data = None ∧ tp_maxMembers data = None
  | _ => True
  end.

(** A database with no document. *)
Definition empty_store (conf : bool) : Store := mkStore conf ∅ ∅ ∅ ∅ ∅ ∅ ∅ ∅.

(** A computation keeps a property of the database, on return and on throw. *)
Definition preserves {A} (P : Store → Prop) (c : M A) : Prop :=
  ∀ s, P s → P (c s).2.

(** * Notions used by the properties of the rest of the module *)

(** The documents a [getDocs] query returns. *)
Definition query_docs {A} (P : string → A → bool) (m : gmap string A)
    : list (string * A) :=
  filter (λ kv, P kv.1 kv.2 = true) (map_to_list m).

(** A collection handle reads what it wrote and writes one table only. *)
Class LawfulColl {A} (c : Coll A) : Prop := {
  tbl_with_tbl m s : tbl c (with_tbl c m s) = m;
  with_tbl_with_tbl m1 m2 s : with_tbl c m1 (with_tbl c m2 s) = with_tbl c m1 s;
  with_tbl_tbl s : with_tbl c (tbl c s) s = s
}.

(** No two profiles carry the same username. *)
Definition unique_usernames (s : Store) : Prop :=
  ∀ u1 u2 p1 p2 name,
    profiles s !! u1 = Some p1 → profiles s !! u2 = Some p2 →
    pr_username p1 = Some name → pr_username p2 = Some name → u1 = u2.

(** The number of unread notifications addressed to a user. *)
Definition unread_count (userId : string) (s : Store) : nat :=
  length (query_docs (λ _ n, unread_for userId n) (notifications s)).

(** The unread messages of a conversation that the user did not send. *)
Definition unread_from_others (userId convId : string) (s : Store) : nat :=
  length (filter (λ d : string * Message, msg_senderId d.2 ≠ userId)
            (query_docs (λ _ m, unread_in convId m) (messages s))).

(** What [markAllNotificationsAsRead] does to one notification. *)
Definition read_if_for (userId : string) (n : Notification) : Notification :=
  if bool_decide (ni_toUserId (nt_data n) = userId) then mark_read n else n.

(** What [markMessagesAsRead] does to one message. *)
Definition read_if_received (conversationId userId : string) (m : Message) : Message :=
  if bool_decide (msg_conversationId m = conversationId)
     && bool_decide (msg_senderId m ≠ userId)
  then mark_message_read m else m.

(** * Proofs *)

(** Reduce the projections of an updated store. *)
Ltac store_simpl :=
  cbn [tbl with_tbl profilesC teamsC teamMembersC invitationsC notificationsC
       postsC conversationsC messagesC configured profiles teams teamMembers
       invitations notifications posts conversations messages fst snd] in *.

(** ** Computations that keep a property of the database *)

Lemma preserves_ret {A} (P : Store → Prop) (a : A) : preserves P (ret a).
Proof. by intros s Hs. Qed.

Lemma preserves_throw {A} (P : Store → Prop) (msg : string) :
  preserves P (throw (A:=A) msg).
Proof. by intros s Hs. Qed.

Lemma preserves_bind {A B} (P : Store → Prop) (c : M A) (k : A → M B) :
  preserves P c → (∀ a, preserves P (k a)) → preserves P (bind c k).
Proof.
  intros Hc Hk s Hs. unfold bind. specialize (Hc s Hs).
  destruct (c s) as [[a|e] s1]; [by apply Hk|done].
Qed.

Lemma preserves_guarded {A} (P : Store → Prop) (v : A) (c : M A) :
  preserves P c → preserves P (guarded v c).
Proof.
  intros Hc s Hs. unfold guarded. destruct (configured s); [by apply Hc|done].
Qed.

Lemma preserves_for_each {A} (P : Store → Prop) (l : list A) (f : A → M unit) :
  (∀ x, preserves P (f x)) → preserves P (for_each l f).
Proof.
  intros Hf. induction l as [|x l IH]; [by apply preserves_ret|].
  simpl. apply preserves_bind; [apply Hf|by intros _].
Qed.

Lemma preserves_getDoc {A} (P : Store → Prop) (c : Coll A) (id : string) :
  preserves P (getDoc c id).
Proof. by intros s Hs. Qed.

Lemma preserves_getDocs {A} (P : Store → Prop) (c : Coll A) (Q : string → A → bool) :
  preserves P (getDocs c Q).
Proof. by intros s Hs. Qed.

(** A write to a collection keeps what does not depend on that collection. *)
Section writes.
Context {A : Type} (P : Store → Prop) (c : Coll A).
Hypothesis Hframe : ∀ m s, P s → P (with_tbl c m s).

Lemma preserves_setDoc (id : string) (d : A) : preserves P (setDoc c id d).
Proof. intros s Hs. by apply Hframe. Qed.

Lemma preserves_updateDoc (id : string) (f : A → A) : preserves P (updateDoc c id f).
Proof.
  intros s Hs. unfold updateDoc. destruct (tbl c s !! id); [by apply Hframe|done].
Qed.

Lemma preserves_addDoc (d : A) : preserves P (addDoc c d).
Proof. intros s Hs. by apply Hframe. Qed.

Lemma preserves_deleteDoc (id : string) : preserves P (deleteDoc c id).
Proof. intros s Hs. by apply Hframe. Qed.
End writes.

(** One step of a proof that a function of the module keeps a property which
    the writes of the function do not touch. *)
Ltac keeps_step :=
  match goal with
  | |- preserves _ (bind _ _) => apply preserves_bind; [|intros ?]
  | |- preserves _ (ret _) => apply preserves_ret
  | |- preserves _ (throw _) => apply preserves_throw
  | |- preserves _ (guarded _ _) => apply preserves_guarded
  | |- preserves _ (for_each _ _) => apply preserves_for_each; intros ?
  | |- preserves _ (getDoc _ _) => apply preserves_getDoc
  | |- preserves _ (getDocs _ _) => apply preserves_getDocs
  | |- preserves _ (setDoc _ _ _) => apply preserves_setDoc; by intros ???
  | |- preserves _ (updateDoc _ _ _) => apply preserves_updateDoc; by intros ???
  | |- preserves _ (addDoc _ _) => apply preserves_addDoc; by intros ???
  | |- preserves _ (deleteDoc _ _) => apply preserves_deleteDoc; by intros ???
  | |- preserves _ (getProfile _) => unfold getProfile
  | |- preserves _ (updateProfile _ _) => unfold updateProfile; cbv zeta
  | |- preserves _ (updateTeam _ _) => unfold updateTeam
  | |- preserves _ (addTeamMember _ _ _) => unfold addTeamMember; cbv zeta
  | |- preserves _ (getTeam _) => unfold getTeam
  | |- preserves _ (createNotification _) => unfold createNotification
  | |- preserves _ (createFeedPost _) => unfold createFeedPost
  | |- preserves _ (match ?x with _ => _ end) => destruct x
  end.
Ltac keeps := cbv zeta; repeat keeps_step.

Section teams_untouched.
Variable T : gmap string Team.
Let P (s : Store) : Prop := teams s = T.

Lemma createProfile_teams (userId : string) (data : ProfilePatch) :
  preserves P (createProfile userId data).
Proof. unfold createProfile. keeps. Qed.

Lemma updateProfile_any_teams (userId : string) (data : ProfilePatch) :
  preserves P (updateProfile userId data).
Proof. unfold updateProfile. keeps. Qed.

Lemma createNotification_teams (data : NotificationInput) :
  preserves P (createNotification data).
Proof. keeps. Qed.

Lemma createFeedPost_teams (data : FeedPost) : preserves P (createFeedPost data).
Proof. keeps. Qed.

Lemma sendInvitation_teams (data : InvitationInput) :
  preserves P (sendInvitation data).
Proof. unfold sendInvitation. keeps. Qed.

Lemma getOrCreateConversation_teams (user1Id user2Id : string) :
  preserves P (getOrCreateConversation user1Id user2Id).
Proof. unfold getOrCreateConversation. keeps. Qed.

Lemma sendMessage_teams (conversationId senderId text : string) :
  preserves P (sendMessage conversationId senderId text).
Proof. unfold sendMessage. keeps. Qed.
End teams_untouched.


(** ** The store model *)

Lemma fresh_string_prefix {A} (m : gmap string A) (s : string) :
  ∃ t, fresh_string s m = s +:+ t.
Proof.
  unfold fresh_string. destruct (m !! s) as [a|] eqn:Hs; [clear a Hs|].
  - generalize 0%N (wf_guard 32 (fresh_string_R_wf s m) 0%N). revert m.
    fix FIX 3; intros m n [?]; simpl; unfold fresh_string_go at 1; simpl.
    destruct (Some_dec (m !! _)) as [[??]|?]; eauto.
  - exists "". clear Hs. induction s as [|c s IH]; [done|].
    change (String c s = String c (s +:+ "")). by f_equal.
Qed.

Lemma autoId_fresh {A} (m : gmap string A) : m !! autoId m = None.
Proof. apply fresh_string_fresh. Qed.

Lemma autoId_nonempty {A} (m : gmap string A) : autoId m ≠ "".
Proof.
  unfold autoId. destruct (fresh_string_prefix m "doc") as [t ->]. done.
Qed.

Lemma is_empty_false (s : string) : s ≠ "" → is_empty s = false.
Proof. by destruct s. Qed.

Lemma truthy_Some (t : string) : t ≠ "" → truthy (Some t) = true.
Proof. by destruct t. Qed.

(** ** Running the guarded reads and writes on a configured store *)

Section configured_store.
Variable s : Store.
Hypothesis Hcfg : configured s = true.

Lemma guarded_run {A} (v : A) (c : M A) : guarded v c s = c s.
Proof. unfold guarded. by rewrite Hcfg. Qed.

Lemma getProfile_run (u : string) : getProfile u s = (Ok (profiles s !! u), s).
Proof. unfold getProfile. by rewrite guarded_run. Qed.

Lemma getTeam_run (t : string) : getTeam t s = (Ok (teams s !! t), s).
Proof. unfold getTeam. by rewrite guarded_run. Qed.

Lemma updateProfile_run (u : string) (t : option string) (l : bool) :
  updateProfile u (team_patch t l) s =
  if is_empty u then (Err "User ID is required for profile update", s)
  else match profiles s !! u with
       | Some p =>
           (Ok tt, with_tbl profilesC
                     (<[u := apply_profile_patch (team_patch t l) p]> (profiles s)) s)
       | None => (Err "not-found", s)
       end.
Proof.
  unfold updateProfile. rewrite guarded_run. destruct u; [done|].
  simpl. unfold updateDoc. simpl. by destruct (profiles s !! _).
Qed.

Lemma updateTeam_run (t : string) (d : TeamPatch) :
  updateTeam t d s =
  match teams s !! t with
  | Some team =>
      (Ok tt, with_tbl teamsC (<[t := apply_team_patch d team]> (teams s)) s)
  | None => (Err "not-found", s)
  end.
Proof. unfold updateTeam. by rewrite guarded_run. Qed.

Lemma createFeedPost_run (p : FeedPost) :
  createFeedPost p s =
  (Ok (autoId (posts s)),
   with_tbl postsC (<[autoId (posts s) := p]> (posts s)) s).
Proof. unfold createFeedPost. by rewrite guarded_run. Qed.

Lemma createNotification_run (n : NotificationInput) :
  createNotification n s =
  (Ok tt,
   with_tbl notificationsC
     (<[autoId (notifications s) := mkNotification n false]> (notifications s)) s).
Proof. unfold createNotification. by rewrite guarded_run. Qed.
End configured_store.

Lemma guarded_off {A} (v : A) (c : M A) (s : Store) :
  configured s = false → guarded v c s = (Ok v, s).
Proof. unfold guarded. by intros ->. Qed.

(** ** One team per user *)

Lemma team_link_one_team (s : Store) : team_link s → one_team s.
Proof.
  intros H u p Hp. destruct (pr_teamId p) as [t|] eqn:Ht; [right|by left].
  destruct (H u p t Hp Ht) as (team & Hteam & _).
  exists t. split; [by eauto|]. intros t' [Heq _]. congruence.
Qed.

Lemma membership_inv_intro (s : Store) : valid_ids s → team_link s → membership_inv s.
Proof. intros ??. split; [done|]. split; [done|]. by apply team_link_one_team. Qed.

Lemma membership_frame (s s' : Store) :
  profiles s' = profiles s → teams s' = teams s →
  membership_inv s → membership_inv s'.
Proof.
  intros Hp Ht (Hv & Hl & _). apply membership_inv_intro.
  - unfold valid_ids. by rewrite Hp, Ht.
  - unfold team_link. rewrite Hp, Ht. done.
Qed.

Lemma inv_add_team (s : Store) (tid : string) (team : Team) :
  membership_inv s → teams s !! tid = None → tid ≠ "" →
  membership_inv (with_tbl teamsC (<[tid := team]> (teams s)) s).
Proof.
  intros ([Hv1 Hv2] & Hl & _) Hfresh Hne. apply membership_inv_intro.
  - split; store_simpl; [done|]. by rewrite lookup_insert_ne.
  - intros u p t Hp Ht. store_simpl.
    destruct (Hl u p t Hp Ht) as (team' & Hteam & Hin).
    exists team'. split; [|done]. rewrite lookup_insert_ne; [done|congruence].
Qed.

Lemma inv_set_profile (s : Store) (u : string) (p' : UserProfile) :
  membership_inv s → u ≠ "" →
  (∀ t, pr_teamId p' = Some t →
        ∃ team, teams s !! t = Some team ∧ u ∈ member_ids team) →
  membership_inv (with_tbl profilesC (<[u := p']> (profiles s)) s).
Proof.
  intros ([Hv1 Hv2] & Hl & _) Hne Hnew. apply membership_inv_intro.
  - split; store_simpl; [|done]. by rewrite lookup_insert_ne.
  - intros v p t Hp Ht. store_simpl.
    destruct (decide (u = v)) as [->|Huv].
    + rewrite lookup_insert_eq in Hp. injection Hp as <-. by apply Hnew.
    + rewrite lookup_insert_ne in Hp by done. by eapply Hl.
Qed.

Lemma inv_set_members (s : Store) (t : string) (team' : Team) :
  membership_inv s →
  t ≠ "" →
  (∀ v p, profiles s !! v = Some p → pr_teamId p = Some t → v ∈ member_ids team') →
  membership_inv (with_tbl teamsC (<[t := team']> (teams s)) s).
Proof.
  intros ([Hv1 Hv2] & Hl & _) Hne Hkeep. apply membership_inv_intro.
  - split; store_simpl; [done|]. by rewrite lookup_insert_ne.
  - intros v p t' Hp Ht. store_simpl.
    destruct (decide (t = t')) as [->|Htt].
    + exists team'. rewrite lookup_insert_eq. split; [done|]. by eapply Hkeep.
    + rewrite lookup_insert_ne by done. by eapply Hl.
Qed.

Lemma inv_delete_team (s : Store) (t : string) :
  membership_inv s →
  (∀ v p, profiles s !! v = Some p → pr_teamId p ≠ Some t) →
  membership_inv (with_tbl teamsC (delete t (teams s)) s).
Proof.
  intros ([Hv1 Hv2] & Hl & _) Hnone. apply membership_inv_intro.
  - split; store_simpl; [done|]. rewrite lookup_delete. by case_decide.
  - intros v p t' Hp Ht. store_simpl.
    destruct (Hl v p t' Hp Ht) as (team & Hteam & Hin).
    exists team. split; [|done]. rewrite lookup_delete_ne; [done|].
    intros ->. by eapply Hnone.
Qed.

Lemma createFeedPost_inv (s : Store) (p : FeedPost) :
  membership_inv s → membership_inv (createFeedPost p s).2.
Proof.
  intros H. unfold createFeedPost, guarded. destruct (configured s); [|done].
  by eapply membership_frame; [..|exact H].
Qed.

Lemma createNotification_inv (s : Store) (n : NotificationInput) :
  membership_inv s → membership_inv (createNotification n s).2.
Proof.
  intros H. unfold createNotification, guarded. destruct (configured s); [|done].
  by eapply membership_frame; [..|exact H].
Qed.

Lemma updateProfile_clear_inv (s : Store) (u : string) (l : bool) :
  membership_inv s → membership_inv (updateProfile u (team_patch None l) s).2.
Proof.
  intros H. destruct (configured s) eqn:Hcfg.
  - rewrite updateProfile_run by done. destruct u as [|a u]; [done|]. simpl is_empty. cbv iota.
    destruct (profiles s !! _) as [p|]; [|done].
    cbn [snd]. apply inv_set_profile; done.
  - unfold updateProfile. by rewrite guarded_off.
Qed.

Lemma createTeam_inv (s : Store) (data : TeamInput) :
  membership_inv s → membership_inv (createTeam data s).2.
Proof.
  intros H. destruct (configured s) eqn:Hcfg;
    [|by unfold createTeam; rewrite guarded_off].
  unfold createTeam. rewrite guarded_run by done.
  unfold bind. rewrite getProfile_run by done.
  unfold addDoc at 1. store_simpl.
  set (tid := autoId (teams s)). set (team := mkTeam _ _ _ _ _ _ _ _).
  assert (H1 : membership_inv (with_tbl teamsC (<[tid := team]> (teams s)) s)).
  { apply inv_add_team; [done|apply autoId_fresh|apply autoId_nonempty]. }
  store_simpl.
  rewrite updateProfile_run by done.
  destruct (ti_leaderId data) as [|a u] eqn:Hu; [done|]. simpl is_empty. cbv iota.
  store_simpl. destruct (profiles s !! String a u) as [p|] eqn:Hp; [|done].
  store_simpl.
  match goal with |- context [createFeedPost ?x ?st] =>
    pose proof (createFeedPost_inv st x) as Hpost;
    destruct (createFeedPost x st) as [[?|?] ?] end.
  all: store_simpl. all: apply Hpost. 
  all: apply (inv_set_profile _ (String a u) _ H1); [done|].
  all: intros t [= <-]; exists team; store_simpl; rewrite lookup_insert_eq.
  all: split; [done|]; unfold member_ids; simpl; set_solver.
Qed.

Lemma addTeamMember_inv (s : Store) (teamId userId role : string) :
  membership_inv s → membership_inv (addTeamMember teamId userId role s).2.
Proof.
  intros H. destruct (configured s) eqn:Hcfg;
    [|by unfold addTeamMember; rewrite guarded_off].
  unfold addTeamMember. rewrite guarded_run by done.
  unfold bind. rewrite getProfile_run by done.
  destruct (truthy _) eqn:Hfree; [done|].
  rewrite getTeam_run by done.
  destruct (teams s !! teamId) as [team|] eqn:Hteam; [|done].
  destruct (team_full team); [done|].
  rewrite updateTeam_run, Hteam by done.
  set (team' := apply_team_patch _ team).
  assert (Hne : teamId ≠ "").
  { intros ->. destruct H as ([_ Hv] & _). congruence. }
  assert (H1 : membership_inv (with_tbl teamsC (<[teamId := team']> (teams s)) s)).
  { apply inv_set_members; [done..|]. intros v p Hp Ht.
    destruct H as (_ & Hl & _). destruct (Hl v p teamId Hp Ht) as (tm & Htm & Hin).
    assert (tm = team) as -> by congruence.
    subst team'. unfold member_ids in *. simpl. rewrite fmap_app.
    apply elem_of_app. by left. }
  rewrite updateProfile_run by done.
  destruct userId as [|a u]; [done|]. simpl is_empty. cbv iota.
  store_simpl. destruct (profiles s !! String a u) as [p|] eqn:Hp; [|done].
  assert (H2 : membership_inv
            (with_tbl profilesC
               (<[String a u := apply_profile_patch (team_patch (Some teamId) false) p]>
                  (profiles s))
               (with_tbl teamsC (<[teamId := team']> (teams s)) s))).
  { apply (inv_set_profile _ (String a u) _ H1); [done|].
    intros t [= <-]. exists team'. store_simpl. rewrite lookup_insert_eq.
    split; [done|]. subst team'. unfold member_ids. simpl. rewrite fmap_app.
    apply elem_of_app. right. apply list_elem_of_singleton. done. }
  store_simpl.
  rewrite createFeedPost_run by done. unfold addDoc, ret. store_simpl.
  by eapply membership_frame; [..|exact H2].
Qed.

(** A loop of [deleteDoc] on one collection succeeds and keeps whatever does
    not depend on that collection. *)
Lemma for_each_delete {A} (c : Coll A) (P : Store → Prop)
    (l : list (string * A)) (s : Store) :
  (∀ m s0, P s0 → P (with_tbl c m s0)) → P s →
  (for_each l (λ d, deleteDoc c d.1) s).1 = Ok tt ∧
  P (for_each l (λ d, deleteDoc c d.1) s).2.
Proof.
  intros Hframe. revert s. induction l as [|d l IH]; intros s Hs; [done|].
  simpl. unfold bind, deleteDoc at 1. apply IH. by apply Hframe.
Qed.

Lemma member_ids_filter (u v : string) (l : list TeamMemberEntry) :
  v ≠ u → v ∈ m_userId <$> l → v ∈ m_userId <$> filter (λ m, m_userId m ≠ u) l.
Proof.
  intros Hne (m & -> & Hm)%list_elem_of_fmap.
  apply list_elem_of_fmap. exists m. split; [done|].
  by apply list_elem_of_filter.
Qed.

Lemma removeTeamMember_inv (s : Store) (teamId userId : string) :
  membership_inv s → membership_inv (removeTeamMember teamId userId s).2.
Proof.
  intros H. destruct (configured s) eqn:Hcfg;
    [|by unfold removeTeamMember; rewrite guarded_off].
  unfold removeTeamMember. rewrite guarded_run by done.
  unfold bind. rewrite getTeam_run by done.
  destruct (teams s !! teamId) as [team|] eqn:Hteam; [|done].
  rewrite updateTeam_run, Hteam by done.
  set (team' := apply_team_patch _ team).
  assert (Hne : teamId ≠ "").
  { intros ->. destruct H as ([_ Hv] & _). congruence. }
  assert (Hkeep : ∀ v p, v ≠ userId → profiles s !! v = Some p →
                          pr_teamId p = Some teamId → v ∈ member_ids team').
  { intros v p Hvu Hp Ht. destruct H as (_ & Hl & _).
    destruct (Hl v p teamId Hp Ht) as (tm & Htm & Hin).
    assert (tm = team) as -> by congruence.
    by apply member_ids_filter. }
  rewrite updateProfile_run by done. store_simpl.
  destruct (is_empty userId) eqn:Hempty.
  { store_simpl. apply inv_set_members; [done..|]. intros v p Hp Ht.
    eapply Hkeep; [|done..]. intros ->. destruct userId; [|done].
    destruct H as ([Hv _] & _). congruence. }
  destruct (profiles s !! userId) as [pu|] eqn:Hpu.
  2:{ store_simpl. apply inv_set_members; [done..|]. intros v p Hp Ht.
      eapply Hkeep; [|done..]. intros ->. congruence. }
  unfold getDocs. store_simpl.
  match goal with |- context [for_each ?l ?f ?st] =>
    destruct (for_each_delete teamMembersC membership_inv l st) as [_ Hdel] end;
    [| |exact Hdel].
  { intros m s0. by apply membership_frame. }
  assert (H2 : membership_inv
            (with_tbl teamsC (<[teamId := team']> (teams s))
               (with_tbl profilesC
                  (<[userId := apply_profile_patch (team_patch None false) pu]>
                     (profiles s)) s))); [|exact H2].
  apply (inv_set_members
           (with_tbl profilesC
              (<[userId := apply_profile_patch (team_patch None false) pu]>
                 (profiles s)) s) teamId team'); [|done|].
  - apply inv_set_profile; [done| |done]. by destruct userId.
  - intros v p Hp Ht. store_simpl. destruct (decide (userId = v)) as [->|Hvu].
    + rewrite lookup_insert_eq in Hp. by injection Hp as <-.
    + rewrite lookup_insert_ne in Hp by done. by eapply Hkeep.
Qed.

(** The first loop of [terminateTeam]. *)
Lemma clear_members_spec (l : list TeamMemberEntry) (s : Store) :
  configured s = true → membership_inv s →
  let out := for_each l
               (λ member, updateProfile (m_userId member) (team_patch None false)) s in
  membership_inv out.2 ∧ teams out.2 = teams s ∧ configured out.2 = true ∧
  (∀ v p, profiles out.2 !! v = Some p →
          pr_teamId p = None ∨ profiles s !! v = Some p) ∧
  (out.1 = Ok tt → ∀ v p, v ∈ m_userId <$> l →
                          profiles out.2 !! v = Some p → pr_teamId p = None).
Proof.
  revert s. induction l as [|m l IH]; intros s Hcfg Hinv out; subst out; simpl.
  { split_and!; try done; [by right|]. intros _ v p Hv. by apply elem_of_nil in Hv. }
  unfold bind. rewrite updateProfile_run by done.
  destruct (is_empty (m_userId m)) eqn:Hempty.
  { split_and!; try done. by right. }
  destruct (profiles s !! m_userId m) as [p0|] eqn:Hp0.
  2:{ split_and!; try done. by right. }
  set (s1 := with_tbl profilesC _ s).
  destruct (IH s1) as (H1 & H2 & H3 & H4 & H5); [done| |].
  { apply inv_set_profile; [done| |done]. by destruct (m_userId m). }
  assert (Hstep : ∀ v p, profiles s1 !! v = Some p →
                         pr_teamId p = None ∨ profiles s !! v = Some p).
  { intros v p. subst s1. store_simpl.
    destruct (decide (m_userId m = v)) as [<-|Hne].
    - rewrite lookup_insert_eq. intros [= <-]. by left.
    - rewrite lookup_insert_ne by done. by right. }
  split_and!; try done.
  - intros v p Hv. destruct (H4 v p Hv) as [?|Hv1]; [by left|by apply Hstep].
  - intros Hok v p [->|Hin]%elem_of_cons Hv; [|by eapply H5].
    destruct (H4 _ _ Hv) as [?|Hv1]; [done|].
    subst s1. store_simpl. rewrite lookup_insert_eq in Hv1. by injection Hv1 as <-.
Qed.

Lemma terminateTeam_inv (s : Store) (teamId leaderId : string) :
  membership_inv s → membership_inv (terminateTeam teamId leaderId s).2.
Proof.
  intros H. destruct (configured s) eqn:Hcfg;
    [|by unfold terminateTeam; rewrite guarded_off].
  unfold terminateTeam. rewrite guarded_run by done.
  unfold bind at 1. rewrite getTeam_run by done.
  destruct (teams s !! teamId) as [team|] eqn:Hteam; [|done].
  destruct (bool_decide _); [done|].
  unfold bind at 1.
  destruct (clear_members_spec (tm_members team) s Hcfg H) as (H1 & H2 & H3 & H4 & H5).
  destruct (for_each (tm_members team) _ s) as [[[]|e] s1]; [|done].
  store_simpl. unfold bind, getDocs.
  set (P := λ st, profiles st = profiles s1 ∧ teams st = teams s1).
  match goal with |- context [for_each ?l (λ d, deleteDoc teamMembersC d.1) ?st] =>
    destruct (for_each_delete teamMembersC P l st) as [Hok2 HP2];
    [by intros ?? [??]|done|];
    destruct (for_each l (λ d, deleteDoc teamMembersC d.1) st) as [r2 s2] end.
  store_simpl. subst r2.
  match goal with |- context [for_each ?l (λ d, deleteDoc invitationsC d.1) ?st] =>
    destruct (for_each_delete invitationsC P l st) as [Hok3 HP3];
    [by intros ?? [??]|done|];
    destruct (for_each l (λ d, deleteDoc invitationsC d.1) st) as [r3 s3] end.
  store_simpl. subst r3. destruct HP3 as [Hp3 Ht3].
  unfold deleteDoc. store_simpl.
  apply (inv_delete_team s3 teamId).
  - by eapply membership_frame; [..|exact H1].
  - intros v p Hv Heq. rewrite Hp3 in Hv.
    destruct (H4 v p Hv) as [Hnone|Hold]; [congruence|].
    destruct H as (_ & Hl & _).
    destruct (Hl v p teamId Hold Heq) as (tm & Htm & Hin).
    assert (tm = team) as -> by congruence.
    specialize (H5 eq_refl v p Hin Hv). congruence.
Qed.

Lemma respondToInvitation_inv (s : Store) (invitationId : string)
    (status : Response) (teamId userId role : option string) :
  membership_inv s →
  membership_inv (respondToInvitation invitationId status teamId userId role s).2.
Proof.
  intros H. destruct (configured s) eqn:Hcfg;
    [|by unfold respondToInvitation; rewrite guarded_off].
  unfold respondToInvitation. rewrite guarded_run by done.
  unfold bind at 1. unfold getDoc at 1. store_simpl.
  destruct (invitations s !! invitationId) as [invitation|] eqn:Hinv; [|done].
  unfold bind at 1.
  match goal with |- context [match ?c s with _ => _ end] =>
    assert (Hchk : ∃ r, c s = (r, s)) end.
  { destruct status; [|by eexists]. unfold bind. rewrite getProfile_run by done.
    destruct (truthy _); [by eexists|]. rewrite getTeam_run by done.
    destruct (teams s !! _) as [team|]; [|by eexists].
    destruct (team_full team); by eexists. }
  destruct Hchk as [r ->]. destruct r as [[]|e]; [|done].
  unfold bind at 1. unfold updateDoc at 1. store_simpl. rewrite Hinv.
  set (s1 := mkStore _ _ _ _ _ _ _ _ _).
  assert (H1 : membership_inv s1) by (by eapply membership_frame; [..|exact H]).
  assert (Hcfg1 : configured s1 = true) by done.
  clearbody s1. destruct status.
  - unfold bind at 1. rewrite getProfile_run by done. unfold bind at 1.
    match goal with |- context [addTeamMember ?t ?u ?r s1] =>
      pose proof (addTeamMember_inv s1 t u r H1) as H2;
      assert (Hcfg2 : configured (addTeamMember t u r s1).2 = true);
      [|destruct (addTeamMember t u r s1) as [[[]|e] s2]; [|done]] end.
    { unfold addTeamMember. rewrite guarded_run by done. unfold bind.
      rewrite getProfile_run by done. destruct (truthy _); [done|].
      rewrite getTeam_run by done. destruct (teams s1 !! _) as [team|]; [|done].
      destruct (team_full team); [done|]. rewrite updateTeam_run by done.
      destruct (teams s1 !! _); [|done].
      rewrite updateProfile_run by done. destruct (is_empty _); [done|]. store_simpl.
      destruct (profiles s1 !! _); [|done]. store_simpl.
      rewrite createFeedPost_run by done. unfold addDoc, ret. by store_simpl. }
    store_simpl. unfold bind. rewrite getProfile_run by done.
    by apply createNotification_inv.
  - unfold bind. rewrite getProfile_run by done. by apply createNotification_inv.
Qed.

Lemma addTeamMember_already_in_team (s : Store) (teamId userId role : string)
    (p : UserProfile) :
  configured s = true → profiles s !! userId = Some p → truthy (pr_teamId p) = true →
  addTeamMember teamId userId role s = (Err "User is already in a team", s).
Proof.
  intros Hcfg Hp Ht. unfold addTeamMember. rewrite guarded_run by done.
  unfold bind. rewrite getProfile_run, Hp by done. simpl. by rewrite Ht.
Qed.

Lemma removeTeamMember_clears_teamId (s : Store) (teamId userId : string)
    (team : Team) (p : UserProfile) :
  configured s = true → userId ≠ "" →
  teams s !! teamId = Some team → profiles s !! userId = Some p →
  (removeTeamMember teamId userId s).1 = Ok tt ∧
  profiles (removeTeamMember teamId userId s).2 !! userId =
    Some (apply_profile_patch (team_patch None false) p).
Proof.
  intros Hcfg Hne Hteam Hp. unfold removeTeamMember. rewrite guarded_run by done.
  unfold bind. rewrite getTeam_run, Hteam by done.
  rewrite updateTeam_run, Hteam by done.
  rewrite updateProfile_run, is_empty_false by done. store_simpl. rewrite Hp.
  unfold getDocs. store_simpl.
  match goal with |- context [for_each ?l ?f ?st] =>
    destruct (for_each_delete teamMembersC (λ st', profiles st' = profiles st) l st)
      as [Hok Hsame]; [done..|] end.
  split; [done|]. rewrite Hsame. store_simpl. by rewrite lookup_insert_eq.
Qed.

(** C1. In a store where every user's [teamId] is null or references exactly
    one team (which lists the user as a member), each membership-changing
    operation - createTeam, addTeamMember, removeTeamMember,
    respondToInvitation, terminateTeam - leaves a store with the same
    property, whether it returns or throws; addTeamMember throws
    'User is already in a team' for a user whose teamId is not null, and
    removeTeamMember resets the removed user's teamId to null. *)
Theorem one_team_per_user_preserved (s : Store) :
  membership_inv s →
  (∀ data, membership_inv (createTeam data s).2) ∧
  (∀ teamId userId role, membership_inv (addTeamMember teamId userId role s).2) ∧
  (∀ teamId userId, membership_inv (removeTeamMember teamId userId s).2) ∧
  (∀ invitationId status teamId userId role,
     membership_inv (respondToInvitation invitationId status teamId userId role s).2) ∧
  (∀ teamId leaderId, membership_inv (terminateTeam teamId leaderId s).2) ∧
  (configured s = true →
   ∀ teamId userId role p t,
     profiles s !! userId = Some p → pr_teamId p = Some t →
     addTeamMember teamId userId role s = (Err "User is already in a team", s)) ∧
  (configured s = true →
   ∀ teamId userId team p,
     teams s !! teamId = Some team → profiles s !! userId = Some p →
     ∃ p', profiles (removeTeamMember teamId userId s).2 !! userId = Some p' ∧
           pr_teamId p' = None).
Proof.
  intros H. split_and!.
  - intros. by apply createTeam_inv.
  - intros. by apply addTeamMember_inv.
  - intros. by apply removeTeamMember_inv.
  - intros. by apply respondToInvitation_inv.
  - intros. by apply terminateTeam_inv.
  - intros Hcfg teamId userId role p t Hp Ht.
    eapply addTeamMember_already_in_team; [done..|].
    rewrite Ht. apply truthy_Some. intros ->.
    destruct H as ([_ Hv] & Hl & _). destruct (Hl _ _ _ Hp Ht) as (? & ? & _).
    congruence.
  - intros Hcfg teamId userId team p Hteam Hp.
    destruct (removeTeamMember_clears_teamId s teamId userId team p) as [_ ->];
      [done| |done..|by eexists].
    intros ->. destruct H as ([Hv _] & _). congruence.
Qed.

Lemma demo_store_membership : membership_inv Demo.store.
Proof.
  apply membership_inv_intro; [done|].
  intros u p t Hp Ht. unfold Demo.store in *. store_simpl.
  repeat (apply lookup_insert_Some in Hp as [[<- <-]|[_ Hp]];
          [try discriminate Ht|]).
  - injection Ht as <-. exists Demo.team1. split; [done|]. unfold member_ids. simpl. set_solver.
  - apply lookup_singleton_Some in Hp as [<- <-].
    injection Ht as <-. exists Demo.team2. split; [done|]. unfold member_ids. simpl. set_solver.
Qed.

Lemma one_team_per_user_preserved_witness :
  membership_inv Demo.store ∧
  membership_inv (terminateTeam "t1" "carol" Demo.store).2 ∧
  addTeamMember "t1" "dave" "Developer" Demo.store
    = (Err "User is already in a team", Demo.store).
Proof.
  pose proof (one_team_per_user_preserved Demo.store demo_store_membership)
    as (_ & _ & _ & _ & Hterm & Hadd & _).
  split; [exact demo_store_membership|]. split; [apply Hterm|].
  by apply (Hadd eq_refl "t1" "dave" "Developer" Demo.dave "t2").
Defined.

(** ** createTeam *)

(** C7. For a leader who has a profile, createTeam returns the id of a new team
    document whose members list is exactly the leader with role 'Team Leader',
    sets the leader's profile to teamId = that id and isTeamLeader = true, and
    adds one feed post of type 'team_created'. *)
Theorem createTeam_creates_led_team (s : Store) (data : TeamInput) (leader : UserProfile) :
  configured s = true →
  ti_leaderId data ≠ "" →
  profiles s !! ti_leaderId data = Some leader →
  let leaderId := ti_leaderId data in
  let teamId := autoId (teams s) in
  let s' := snd (createTeam data s) in
  fst (createTeam data s) = Ok teamId ∧
  teams s !! teamId = None ∧
  (∃ team, teams s' = <[teamId := team]> (teams s) ∧
     tm_leaderId team = leaderId ∧
     tm_maxMembers team = ti_maxMembers data ∧
     tm_members team =
       [mkEntry leaderId "Team Leader" (or_else (pr_fullName leader) "User")]) ∧
  (∃ leader', profiles s' = <[leaderId := leader']> (profiles s) ∧
     pr_teamId leader' = Some teamId ∧ pr_isTeamLeader leader' = true) ∧
  (∃ postId post, posts s !! postId = None ∧
     posts s' = <[postId := post]> (posts s) ∧
     fp_type post = team_created ∧ fp_authorId post = leaderId ∧
     fp_teamId post = Some teamId).
Proof.
  intros Hcfg Hne Hp leaderId teamId s'. subst s' leaderId teamId.
  destruct (createTeam data s) as [r sf] eqn:Hrun.
  unfold createTeam in Hrun. rewrite guarded_run in Hrun by done.
  unfold bind in Hrun. rewrite getProfile_run, Hp in Hrun by done.
  unfold addDoc at 1 in Hrun. store_simpl.
  rewrite updateProfile_run, is_empty_false in Hrun by done. store_simpl.
  rewrite Hp, createFeedPost_run in Hrun by done. unfold ret in Hrun.
  store_simpl. injection Hrun as <- <-. store_simpl.
  split; [done|]. split; [apply autoId_fresh|].
  split; [eexists; split; [reflexivity|done]|].
  split; [eexists; split; [reflexivity|done]|].
  do 2 eexists. split; [apply autoId_fresh|]. split; [reflexivity|done].
Qed.

Lemma createTeam_creates_led_team_witness :
  (createTeam Demo.new_team Demo.store).1 = Ok (autoId (teams Demo.store)) ∧
  teams Demo.store !! autoId (teams Demo.store) = None.
Proof.
  assert (Hne : ti_leaderId Demo.new_team ≠ "") by discriminate.
  assert (Hp : profiles Demo.store !! ti_leaderId Demo.new_team = Some Demo.alice)
    by (vm_compute; reflexivity).
  destruct (createTeam_creates_led_team Demo.store Demo.new_team Demo.alice
              eq_refl Hne Hp) as (H1 & H2 & _).
  split; [exact H1|exact H2].
Defined.

(** ** sendInvitation *)

Lemma filter_none {A} (P : A → Prop) `{!∀ x, Decision (P x)} (l : list A) :
  (∀ x, x ∈ l → ¬ P x) → filter P l = [].
Proof.
  induction l as [|x l IH]; intros Hall; [done|].
  rewrite filter_cons. destruct (decide (P x)) as [HP|_].
  - exfalso. apply (Hall x); [left|done].
  - apply IH. intros y Hy. apply Hall. by right.
Qed.

(** What a [getDocs] query returns, in terms of the collection. *)
Lemma query_nil {A} (P : string → A → bool) (m : gmap string A) :
  filter (λ kv, P kv.1 kv.2 = true) (map_to_list m) = [] ↔
  ∀ id d, m !! id = Some d → P id d = false.
Proof.
  split.
  - intros Hnil id d Hd. destruct (P id d) eqn:HP; [|done].
    assert (Hin : (id, d) ∈ filter (λ kv, P kv.1 kv.2 = true) (map_to_list m)).
    { apply list_elem_of_filter. split; [done|]. by apply elem_of_map_to_list. }
    rewrite Hnil in Hin. by apply elem_of_nil in Hin.
  - intros Hall. apply filter_none.
    intros [id d] Hin%elem_of_map_to_list. simpl. rewrite (Hall id d Hin). done.
Qed.

Lemma sendInvitation_run (s : Store) (data : InvitationInput) :
  configured s = true →
  sendInvitation data s =
  if truthy (profiles s !! prospective_joiner data ≫= pr_teamId)
  then (Err (already_in_team_message (ii_type data)), s)
  else
    match filter (λ kv, pending_from (ii_fromUserId data) (ii_teamId data) kv.2 = true)
            (map_to_list (invitations s)) with
    | _ :: _ => (Err (already_sent_message (ii_type data)), s)
    | [] =>
        (Ok tt,
         with_tbl notificationsC
           (<[autoId (notifications s) := mkNotification (invitation_notice data) false]>
              (notifications s))
           (with_tbl invitationsC
              (<[autoId (invitations s) := mkInvitation data pending]> (invitations s))
              s))
    end.
Proof.
  intros Hcfg. unfold sendInvitation. rewrite guarded_run by done.
  unfold prospective_joiner, already_in_team_message, already_sent_message,
    invitation_notice.
  destruct (ii_type data); cbn [is_join_request negb]; unfold bind, ret;
    cbv beta iota; rewrite getProfile_run by done;
    (destruct (truthy _); [done|]); unfold ret, getDocs; store_simpl;
    (destruct (filter _ _); [|done]); unfold addDoc; store_simpl;
    by rewrite createNotification_run.
Qed.

(** C6. sendInvitation checks the prospective joiner first: an invite to a
    user whose profile has a (non-empty) teamId throws
    'User is already in a team', a join request from such a user throws
    'You are already in a team'; the store is unchanged, so neither an
    invitation nor a notification is created. *)
Theorem sendInvitation_one_team_precondition (s : Store) (data : InvitationInput)
    (p : UserProfile) (t : string) :
  configured s = true → pr_teamId p = Some t → t ≠ "" →
  (ii_type data = invite → profiles s !! ii_toUserId data = Some p →
   sendInvitation data s = (Err "User is already in a team", s)) ∧
  (ii_type data = join_request → profiles s !! ii_fromUserId data = Some p →
   sendInvitation data s = (Err "You are already in a team", s)).
Proof.
  intros Hcfg Ht Hne.
  split; intros Hty Hp; rewrite sendInvitation_run by done;
    unfold prospective_joiner, already_in_team_message; rewrite Hty;
    cbn [is_join_request]; rewrite Hp; simpl; rewrite Ht;
    by rewrite truthy_Some.
Qed.

Lemma sendInvitation_one_team_precondition_witness :
  sendInvitation Demo.invite_carol Demo.store
    = (Err "User is already in a team", Demo.store) ∧
  sendInvitation Demo.request_carol Demo.store
    = (Err "You are already in a team", Demo.store).
Proof.
  assert (Hne : "t1" ≠ "") by discriminate.
  split.
  - apply (sendInvitation_one_team_precondition Demo.store Demo.invite_carol
             Demo.carol "t1" eq_refl eq_refl Hne); [reflexivity|].
    vm_compute; reflexivity.
  - apply (sendInvitation_one_team_precondition Demo.store Demo.request_carol
             Demo.carol "t1" eq_refl eq_refl Hne); [reflexivity|].
    vm_compute; reflexivity.
Defined.

(** ** De-duplication of pending invitations *)

Lemma sendInvitation_unique_pending (s : Store) (data : InvitationInput) :
  unique_pending s → unique_pending (sendInvitation data s).2.
Proof.
  intros Huniq. destruct (configured s) eqn:Hcfg;
    [|by unfold sendInvitation; rewrite guarded_off].
  rewrite sendInvitation_run by done. destruct (truthy _); [done|].
  destruct (filter _ _) as [|d l] eqn:Hq; [|done].
  pose proof (proj1 (query_nil (λ _ i, pending_from _ _ i) _) Hq) as Hnone.
  store_simpl. intros id1 id2 i1 i2 H1 H2 Hp1 Hp2 Hfrom Hteam. store_simpl.
  assert (Hclash : ∀ id i, invitations s !! id = Some i → inv_status i = pending →
                           ii_fromUserId (inv_data i) = ii_fromUserId data →
                           ii_teamId (inv_data i) = ii_teamId data → False).
  { intros id i Hi Hst Hf Ht. specialize (Hnone id i Hi). unfold pending_from in Hnone.
    rewrite !bool_decide_eq_true_2 in Hnone by done. done. }
  apply lookup_insert_Some in H1 as [[<- <-]|[Hn1 H1]];
    apply lookup_insert_Some in H2 as [[<- <-]|[Hn2 H2]]; simpl in *.
  - done.
  - exfalso. by eapply (Hclash id2 i2).
  - exfalso. by eapply (Hclash id1 i1).
  - by eapply Huniq.
Qed.

(** C3, as the code has it. A call that passes the one-team check throws
    'Invitation already sent' / 'Join request already sent' and writes nothing
    when a pending invitation with the same fromUserId and teamId exists, and
    otherwise creates exactly one new invitation, with status 'pending'. A
    call that fails the one-team check creates nothing either, so every call
    keeps at most one pending invitation per (fromUser, team) pair. *)
Theorem sendInvitation_deduplicates (s : Store) (data : InvitationInput) :
  (configured s = true →
   truthy (profiles s !! prospective_joiner data ≫= pr_teamId) = false →
   ((∃ id i, invitations s !! id = Some i ∧
             pending_from (ii_fromUserId data) (ii_teamId data) i = true) →
    sendInvitation data s =
      (Err (if is_join_request (ii_type data)
            then "Join request already sent" else "Invitation already sent"), s)) ∧
   ((∀ id i, invitations s !! id = Some i →
             pending_from (ii_fromUserId data) (ii_teamId data) i = false) →
    ∃ newId, invitations s !! newId = None ∧
             (sendInvitation data s).1 = Ok tt ∧
             invitations (sendInvitation data s).2 =
               <[newId := mkInvitation data pending]> (invitations s))) ∧
  (unique_pending s → unique_pending (sendInvitation data s).2).
Proof.
  split; [|apply sendInvitation_unique_pending].
  intros Hcfg Hfree. rewrite sendInvitation_run, Hfree by done. split.
  - intros (id & i & Hi & Hpend).
    destruct (filter _ _) as [|d l] eqn:Hq; [|done].
    pose proof (proj1 (query_nil (λ _ i, pending_from _ _ i) _) Hq id i Hi).
    congruence.
  - intros Hnone.
    rewrite (proj2 (query_nil (λ _ i, pending_from _ _ i) _) Hnone).
    exists (autoId (invitations s)). split; [apply autoId_fresh|]. done.
Qed.

Lemma sendInvitation_deduplicates_witness :
  sendInvitation Demo.request2 Demo.store
    = (Err "Join request already sent", Demo.store) ∧
  (sendInvitation Demo.request_alice Demo.store).1 = Ok tt.
Proof.
  destruct (sendInvitation_deduplicates Demo.store Demo.request2) as [H2 _].
  destruct (sendInvitation_deduplicates Demo.store Demo.request_alice) as [Ha _].
  split.
  - apply H2; [reflexivity|vm_compute; reflexivity|].
    exists "i2", (mkInvitation Demo.request2 pending).
    split; vm_compute; reflexivity.
  - destruct Ha as [_ Ha]; [reflexivity|vm_compute; reflexivity|].
    destruct Ha as (newId & _ & Hok & _); [|exact Hok].
    apply (query_nil (λ _ i,
             pending_from (ii_fromUserId Demo.request_alice)
               (ii_teamId Demo.request_alice) i)).
    vm_compute; reflexivity.
Defined.

(** C3 as stated fails: nothing is pending from Dave for team t2, yet his
    invitation to Carol, who is in a team, is refused and no invitation is
    created. *)
Lemma sendInvitation_not_always_created :
  (∀ id i, invitations Demo.store !! id = Some i →
           pending_from (ii_fromUserId Demo.invite_carol)
             (ii_teamId Demo.invite_carol) i = false) ∧
  sendInvitation Demo.invite_carol Demo.store
    = (Err "User is already in a team", Demo.store) ∧
  invitations (sendInvitation Demo.invite_carol Demo.store).2
    = invitations Demo.store.
Proof.
  split; [|split].
  - apply (query_nil (λ _ i,
             pending_from (ii_fromUserId Demo.invite_carol)
               (ii_teamId Demo.invite_carol) i)).
    vm_compute; reflexivity.
  - vm_compute; reflexivity.
  - vm_compute; reflexivity.
Qed.

(** ** addTeamMember and respondToInvitation, step by step *)

Lemma addTeamMember_run (s : Store) (teamId userId role : string)
    (p : UserProfile) (team : Team) :
  configured s = true → userId ≠ "" →
  profiles s !! userId = Some p → truthy (pr_teamId p) = false →
  teams s !! teamId = Some team → team_full team = false →
  ∃ post,
    fp_type post = member_joined ∧
    addTeamMember teamId userId role s =
    (Ok tt,
     {| configured := true;
        profiles := <[userId := apply_profile_patch (team_patch (Some teamId) false) p]>
                      (profiles s);
        teams := <[teamId := joined_team userId role p team]> (teams s);
        teamMembers := <[autoId (teamMembers s) := mkMemberDoc teamId userId role]>
                         (teamMembers s);
        invitations := invitations s;
        notifications := notifications s;
        posts := <[autoId (posts s) := post]> (posts s);
        conversations := conversations s;
        messages := messages s |}).
Proof.
  intros Hcfg Hne Hp Hfree Hteam Hroom.
  unfold addTeamMember. rewrite guarded_run by done.
  unfold bind. rewrite getProfile_run, Hp by done. cbn [mbind option_bind].
  rewrite Hfree, getTeam_run, Hteam, Hroom by done.
  rewrite updateTeam_run, Hteam by done.
  rewrite updateProfile_run, is_empty_false by done. store_simpl. rewrite Hp.
  rewrite createFeedPost_run by done. unfold addDoc, ret. store_simpl.
  rewrite Hcfg. eexists. split; [|reflexivity]. done.
Qed.

(** The checks of [addTeamMember] throw before any write. *)
Lemma addTeamMember_refused (s : Store) (teamId userId role : string) :
  configured s = true →
  let busy := truthy (profiles s !! userId ≫= pr_teamId) in
  (busy = true →
   addTeamMember teamId userId role s = (Err "User is already in a team", s)) ∧
  (busy = false → teams s !! teamId = None →
   addTeamMember teamId userId role s = (Err "Team not found", s)) ∧
  (∀ team, busy = false → teams s !! teamId = Some team → team_full team = true →
   addTeamMember teamId userId role s = (Err "Team is full", s)).
Proof.
  intros Hcfg busy. subst busy. unfold addTeamMember. rewrite guarded_run by done.
  unfold bind. rewrite getProfile_run by done.
  split_and!.
  - by intros ->.
  - intros -> Hteam. by rewrite getTeam_run, Hteam.
  - intros team -> Hteam Hfull. by rewrite getTeam_run, Hteam, Hfull.
Qed.

(** The checks of an acceptance throw before any write. *)
Lemma respondToInvitation_refused (s : Store) (invitationId : string)
    (teamId userId role : option string) :
  configured s = true →
  (∀ status, invitations s !! invitationId = None →
   respondToInvitation invitationId status teamId userId role s
     = (Err "Invitation not found", s)) ∧
  (∀ invitation,
     invitations s !! invitationId = Some invitation →
     let inv := inv_data invitation in
     let busy := truthy (profiles s !! joining_user inv ≫= pr_teamId) in
     (busy = true →
      respondToInvitation invitationId accept teamId userId role s
        = (Err "User is already in a team", s)) ∧
     (busy = false → teams s !! ii_teamId inv = None →
      respondToInvitation invitationId accept teamId userId role s
        = (Err "Team no longer exists", s)) ∧
     (∀ team, busy = false → teams s !! ii_teamId inv = Some team →
              team_full team = true →
      respondToInvitation invitationId accept teamId userId role s
        = (Err "Team is full", s))).
Proof.
  intros Hcfg. split.
  - intros status Hi. unfold respondToInvitation. rewrite guarded_run by done.
    unfold bind, getDoc. store_simpl. by rewrite Hi.
  - intros invitation Hi inv busy. subst inv busy. unfold joining_user.
    unfold respondToInvitation. rewrite guarded_run by done.
    unfold bind, getDoc. store_simpl. rewrite Hi.
    rewrite getProfile_run by done. split_and!.
    + by intros ->.
    + intros -> Hteam. by rewrite getTeam_run, Hteam.
    + intros team -> Hteam Hfull. by rewrite getTeam_run, Hteam, Hfull.
Qed.

(** [addTeamMember] writes profiles, teams, posts and teamMembers only. *)
Lemma addTeamMember_frame (s : Store) (teamId userId role : string) :
  let s' := (addTeamMember teamId userId role s).2 in
  configured s' = configured s ∧ invitations s' = invitations s ∧
  notifications s' = notifications s ∧ conversations s' = conversations s ∧
  messages s' = messages s.
Proof.
  destruct (configured s) eqn:Hcfg;
    [|by unfold addTeamMember; rewrite guarded_off].
  unfold addTeamMember. rewrite guarded_run by done.
  unfold bind. rewrite getProfile_run by done. destruct (truthy _); [done|].
  rewrite getTeam_run by done. destruct (teams s !! _) as [team|]; [|done].
  destruct (team_full team); [done|]. rewrite updateTeam_run by done.
  destruct (teams s !! _); [|done].
  rewrite updateProfile_run by done. destruct (is_empty _); [done|]. store_simpl.
  destruct (profiles s !! _); [|done]. store_simpl.
  rewrite createFeedPost_run by done. unfold addDoc, ret. by store_simpl.
Qed.

Lemma respondToInvitation_reject_run (s : Store) (invitationId : string)
    (teamId userId role : option string) (invitation : Invitation) :
  configured s = true → invitations s !! invitationId = Some invitation →
  ∃ n,
    ni_toUserId n = ii_fromUserId (inv_data invitation) ∧ ni_type n = REJECTED ∧
    respondToInvitation invitationId reject teamId userId role s =
    (Ok tt,
     {| configured := true;
        profiles := profiles s;
        teams := teams s;
        teamMembers := teamMembers s;
        invitations := <[invitationId := set_status rejected invitation]> (invitations s);
        notifications := <[autoId (notifications s) := mkNotification n false]>
                           (notifications s);
        posts := posts s;
        conversations := conversations s;
        messages := messages s |}).
Proof.
  intros Hcfg Hi. unfold respondToInvitation. rewrite guarded_run by done.
  unfold bind, getDoc. store_simpl. rewrite Hi. unfold ret, updateDoc. store_simpl.
  rewrite Hi. rewrite getProfile_run by done. store_simpl.
  rewrite createNotification_run by done. store_simpl. rewrite Hcfg.
  eexists. split_and!; [| |reflexivity]; [by destruct (is_join_request _)|done].
Qed.

Lemma respondToInvitation_accept_run (s : Store) (invitationId : string)
    (teamId userId role : option string) (invitation : Invitation)
    (p : UserProfile) (team : Team) :
  let inv := inv_data invitation in
  let joiner := joining_user inv in
  configured s = true → invitations s !! invitationId = Some invitation →
  joiner ≠ "" → profiles s !! joiner = Some p → truthy (pr_teamId p) = false →
  teams s !! ii_teamId inv = Some team → team_full team = false →
  ∃ n post,
    ni_toUserId n = ii_fromUserId inv ∧ ni_type n = ACCEPTED ∧
    fp_type post = member_joined ∧
    respondToInvitation invitationId accept teamId userId role s =
    (Ok tt,
     {| configured := true;
        profiles :=
          <[joiner := apply_profile_patch (team_patch (Some (ii_teamId inv)) false) p]>
            (profiles s);
        teams :=
          <[ii_teamId inv := joined_team joiner (joining_role (Some p) role) p team]>
            (teams s);
        teamMembers :=
          <[autoId (teamMembers s) :=
              mkMemberDoc (ii_teamId inv) joiner (joining_role (Some p) role)]>
            (teamMembers s);
        invitations := <[invitationId := set_status accepted invitation]> (invitations s);
        notifications := <[autoId (notifications s) := mkNotification n false]>
                           (notifications s);
        posts := <[autoId (posts s) := post]> (posts s);
        conversations := conversations s;
        messages := messages s |}).
Proof.
  intros inv joiner Hcfg Hi Hne Hp Hfree Hteam Hroom. subst inv joiner.
  unfold respondToInvitation. rewrite guarded_run by done.
  unfold bind at 1. unfold getDoc at 1. store_simpl. rewrite Hi.
  unfold joining_user in *. unfold bind at 1. unfold bind at 1.
  rewrite getProfile_run, Hp by done. cbn [mbind option_bind].
  rewrite Hfree. unfold bind at 1. rewrite getTeam_run, Hteam, Hroom by done.
  unfold ret at 1. unfold bind at 1. unfold updateDoc at 1. store_simpl. rewrite Hi.
  set (s1 := mkStore _ _ _ _ _ _ _ _ _).
  unfold bind at 1. rewrite getProfile_run by done. subst s1. store_simpl. rewrite Hp.
  unfold bind at 1.
  match goal with |- context [addTeamMember ?t ?u ?r ?st] =>
    destruct (addTeamMember_run st t u r p team) as (post & Hpost & ->);
      [done..|] end.
  store_simpl. unfold bind. rewrite getProfile_run by done. store_simpl.
  rewrite createNotification_run by done. store_simpl.
  do 2 eexists. split_and!; [| | |reflexivity]; [|done..].
  by destruct (is_join_request _).
Qed.

(** C8. Accepting an invitation is atomic on failure: when the invitation
    does not exist, the joining user already has a team, the team no longer
    exists or the team is full, respondToInvitation throws and the store is
    the one it started from: the invitation keeps its status, and no member,
    profile update or notification is written. *)
Theorem respondToInvitation_accept_atomic (s : Store) (invitationId : string)
    (teamId userId role : option string) :
  configured s = true →
  let run := respondToInvitation invitationId accept teamId userId role s in
  (invitations s !! invitationId = None → ∃ msg, run = (Err msg, s)) ∧
  (∀ invitation,
     invitations s !! invitationId = Some invitation →
     let inv := inv_data invitation in
     (truthy (profiles s !! joining_user inv ≫= pr_teamId) = true →
      ∃ msg, run = (Err msg, s)) ∧
     (teams s !! ii_teamId inv = None → ∃ msg, run = (Err msg, s)) ∧
     (∀ team, teams s !! ii_teamId inv = Some team → team_full team = true →
              ∃ msg, run = (Err msg, s))).
Proof.
  intros Hcfg run. subst run.
  destruct (respondToInvitation_refused s invitationId teamId userId role Hcfg)
    as [Hmissing Hfound].
  split; [intros Hi; eexists; by apply Hmissing|].
  intros invitation Hi inv. subst inv.
  destruct (Hfound invitation Hi) as (Hbusy & Hgone & Hfull).
  destruct (truthy (profiles s !! joining_user (inv_data invitation) ≫= pr_teamId))
    eqn:Hb.
  - split_and!; intros; eexists; by apply Hbusy.
  - split_and!.
    + done.
    + intros Hteam. eexists. by apply Hgone.
    + intros team Hteam Hf. eexists. by eapply Hfull.
Qed.

Lemma respondToInvitation_accept_atomic_witness :
  respondToInvitation "i2" accept None None None Demo.store
    = (Err "Team is full", Demo.store).
Proof.
  destruct (respondToInvitation_accept_atomic Demo.store "i2" None None None eq_refl)
    as [_ H].
  destruct (H (mkInvitation Demo.request2 pending)) as (_ & _ & Hfull);
    [vm_compute; reflexivity|].
  destruct (Hfull Demo.team2) as [msg Hmsg]; [vm_compute; reflexivity..|].
  rewrite Hmsg. f_equal.
  assert (Hrun : (respondToInvitation "i2" accept None None None Demo.store).1
                 = Err "Team is full") by (vm_compute; reflexivity).
  rewrite Hmsg in Hrun. exact Hrun.
Defined.

(** C4. respondToInvitation sets the status of the invitation to the answer
    given; an acceptance that passes the checks appends the joining user
    (the sender of a join request, the recipient of an invite) to the members
    list of the team and sets that user's profile to teamId = the team's id
    and isTeamLeader = false. *)
Theorem respondToInvitation_resolves (s : Store) (invitationId : string)
    (teamId userId role : option string) (invitation : Invitation) :
  configured s = true → invitations s !! invitationId = Some invitation →
  let inv := inv_data invitation in
  let joiner := joining_user inv in
  (let out := respondToInvitation invitationId reject teamId userId role s in
   out.1 = Ok tt ∧
   invitations out.2 !! invitationId = Some (mkInvitation inv rejected)) ∧
  (∀ p team,
     joiner ≠ "" → profiles s !! joiner = Some p → truthy (pr_teamId p) = false →
     teams s !! ii_teamId inv = Some team → team_full team = false →
     let out := respondToInvitation invitationId accept teamId userId role s in
     out.1 = Ok tt ∧
     invitations out.2 !! invitationId = Some (mkInvitation inv accepted) ∧
     (∃ team',
        teams out.2 !! ii_teamId inv = Some team' ∧
        tm_members team' =
          (tm_members team ++
           [mkEntry joiner (joining_role (Some p) role)
              (or_else (pr_fullName p) "User")])%list) ∧
     (∃ p', profiles out.2 !! joiner = Some p' ∧
            pr_teamId p' = Some (ii_teamId inv) ∧ pr_isTeamLeader p' = false)).
Proof.
  intros Hcfg Hi inv joiner. split.
  - destruct (respondToInvitation_reject_run s invitationId teamId userId role
                invitation Hcfg Hi) as (n & _ & _ & ->).
    store_simpl. by rewrite lookup_insert_eq.
  - intros p team Hne Hp Hfree Hteam Hroom.
    destruct (respondToInvitation_accept_run s invitationId teamId userId role
                invitation p team Hcfg Hi Hne Hp Hfree Hteam Hroom)
      as (n & post & _ & _ & _ & ->).
    store_simpl. rewrite !lookup_insert_eq. split_and!; [done..| |].
    + eexists. split; [reflexivity|done].
    + eexists. split; [reflexivity|done].
Qed.

Lemma respondToInvitation_resolves_witness :
  (respondToInvitation "i1" accept None None None Demo.store).1 = Ok tt ∧
  invitations (respondToInvitation "i1" accept None None None Demo.store).2 !! "i1"
    = Some (mkInvitation Demo.invite1 accepted).
Proof.
  assert (Hi : invitations Demo.store !! "i1" = Some (mkInvitation Demo.invite1 pending))
    by (vm_compute; reflexivity).
  destruct (respondToInvitation_resolves Demo.store "i1" None None None _ eq_refl Hi)
    as [_ Hacc].
  destruct (Hacc Demo.alice Demo.team1) as (Hok & Hst & _).
  - discriminate.
  - vm_compute; reflexivity.
  - reflexivity.
  - vm_compute; reflexivity.
  - vm_compute; reflexivity.
  - split; [exact Hok|exact Hst].
Defined.

(** ** Notifications *)




(** ** Team capacity *)

Lemma for_each_preserves {A} (P : Store → Prop) (f : A → M unit) (l : list A) :
  (∀ x s, P s → P (f x s).2) → ∀ s, P s → P (for_each l f s).2.
Proof.
  intros Hf. induction l as [|x l IH]; intros s Hs; [done|].
  simpl. unfold bind. specialize (Hf x s Hs).
  destruct (f x s) as [[[]|e] s1]; [|done]. by apply IH.
Qed.

Lemma updateProfile_teams (s : Store) (u : string) (t : option string) (l : bool) :
  teams (updateProfile u (team_patch t l) s).2 = teams s.
Proof.
  destruct (configured s) eqn:Hcfg; [|by unfold updateProfile; rewrite guarded_off].
  rewrite updateProfile_run by done. destruct (is_empty u); [done|].
  by destruct (profiles s !! u).
Qed.

Lemma capacity_frame (s s' : Store) :
  teams s' = teams s → capacity_inv s → capacity_inv s'.
Proof. unfold capacity_inv. by intros ->. Qed.

Lemma capacity_insert (s : Store) (t : string) (team : Team) :
  capacity_inv s → within_capacity team →
  capacity_inv (with_tbl teamsC (<[t := team]> (teams s)) s).
Proof.
  intros Hcap Hteam t' team'. store_simpl.
  intros [[<- <-]|[_ Hold]]%lookup_insert_Some; [done|]. by eapply Hcap.
Qed.

Lemma capacity_delete (s : Store) (t : string) :
  capacity_inv s → capacity_inv (with_tbl teamsC (delete t (teams s)) s).
Proof.
  intros Hcap t' team'. store_simpl.
  intros [_ Hold]%lookup_delete_Some. by eapply Hcap.
Qed.

Lemma team_with_room (team : Team) (e : TeamMemberEntry) :
  team_full team = false →
  within_capacity (apply_team_patch (members_patch (tm_members team ++ [e])) team).
Proof.
  unfold team_full, within_capacity. intros Hroom%Z.leb_gt. simpl.
  rewrite length_app. simpl. lia.
Qed.

Lemma addTeamMember_capacity (s : Store) (teamId userId role : string) :
  capacity_inv s → capacity_inv (addTeamMember teamId userId role s).2.
Proof.
  intros H. destruct (configured s) eqn:Hcfg;
    [|by unfold addTeamMember; rewrite guarded_off].
  unfold addTeamMember. rewrite guarded_run by done.
  unfold bind. rewrite getProfile_run by done. destruct (truthy _); [done|].
  rewrite getTeam_run by done.
  destruct (teams s !! teamId) as [team|] eqn:Hteam; [|done].
  destruct (team_full team) eqn:Hroom; [done|].
  rewrite updateTeam_run, Hteam by done.
  pose proof (capacity_insert s teamId _ H (team_with_room team
    (mkEntry userId role (or_else (profiles s !! userId ≫= pr_fullName) "User")) Hroom))
    as H1.
  rewrite updateProfile_run by done. destruct (is_empty _); [done|]. store_simpl.
  destruct (profiles s !! userId); [|done]. store_simpl.
  rewrite createFeedPost_run by done. unfold addDoc, ret. store_simpl.
  by eapply capacity_frame; [|exact H1].
Qed.

Lemma respondToInvitation_capacity (s : Store) (invitationId : string)
    (status : Response) (teamId userId role : option string) :
  capacity_inv s →
  capacity_inv (respondToInvitation invitationId status teamId userId role s).2.
Proof.
  intros H. destruct (configured s) eqn:Hcfg;
    [|by unfold respondToInvitation; rewrite guarded_off].
  unfold respondToInvitation. rewrite guarded_run by done.
  unfold bind at 1. unfold getDoc at 1. store_simpl.
  destruct (invitations s !! invitationId) as [invitation|] eqn:Hinv; [|done].
  unfold bind at 1.
  match goal with |- context [match ?c s with _ => _ end] =>
    assert (Hchk : ∃ r, c s = (r, s)) end.
  { destruct status; [|by eexists]. unfold bind. rewrite getProfile_run by done.
    destruct (truthy _); [by eexists|]. rewrite getTeam_run by done.
    destruct (teams s !! _) as [team|]; [|by eexists].
    destruct (team_full team); by eexists. }
  destruct Hchk as [r ->]. destruct r as [[]|e]; [|done].
  unfold bind at 1. unfold updateDoc at 1. store_simpl. rewrite Hinv.
  set (s1 := mkStore _ _ _ _ _ _ _ _ _).
  assert (H1 : capacity_inv s1) by (by eapply capacity_frame; [|exact H]).
  assert (Hcfg1 : configured s1 = true) by done.
  clearbody s1. destruct status.
  - unfold bind at 1. rewrite getProfile_run by done. unfold bind at 1.
    match goal with |- context [addTeamMember ?t ?u ?r s1] =>
      pose proof (addTeamMember_capacity s1 t u r H1) as H2;
      pose proof (addTeamMember_frame s1 t u r) as (Hc2 & _);
      destruct (addTeamMember t u r s1) as [[[]|e] s2]; [|done] end.
    store_simpl. rewrite Hcfg1 in Hc2.
    unfold bind. rewrite getProfile_run, createNotification_run by done.
    by eapply capacity_frame; [|exact H2].
  - unfold bind. rewrite getProfile_run, createNotification_run by done.
    by eapply capacity_frame; [|exact H1].
Qed.

Lemma removeTeamMember_capacity (s : Store) (teamId userId : string) :
  capacity_inv s → capacity_inv (removeTeamMember teamId userId s).2.
Proof.
  intros H. destruct (configured s) eqn:Hcfg;
    [|by unfold removeTeamMember; rewrite guarded_off].
  unfold removeTeamMember. rewrite guarded_run by done.
  unfold bind. rewrite getTeam_run by done.
  destruct (teams s !! teamId) as [team|] eqn:Hteam; [|done].
  rewrite updateTeam_run, Hteam by done.
  set (team' := apply_team_patch _ team).
  assert (H1 : capacity_inv (with_tbl teamsC (<[teamId := team']> (teams s)) s)).
  { apply capacity_insert; [done|]. specialize (H _ _ Hteam).
    unfold within_capacity in *. subst team'. simpl.
    pose proof (length_filter (λ m, m_userId m ≠ userId) (tm_members team)). lia. }
  rewrite updateProfile_run by done. destruct (is_empty _); [done|]. store_simpl.
  destruct (profiles s !! userId); [|done]. unfold getDocs. store_simpl.
  match goal with |- context [for_each ?l ?f ?st] =>
    destruct (for_each_delete teamMembersC
                (λ st', teams st' = <[teamId := team']> (teams s)) l st)
      as [_ Hdel]; [done..|] end.
  by eapply capacity_frame; [|exact H1].
Qed.

Lemma terminateTeam_capacity (s : Store) (teamId leaderId : string) :
  capacity_inv s → capacity_inv (terminateTeam teamId leaderId s).2.
Proof.
  intros H. destruct (configured s) eqn:Hcfg;
    [|by unfold terminateTeam; rewrite guarded_off].
  unfold terminateTeam. rewrite guarded_run by done.
  unfold bind at 1. rewrite getTeam_run by done.
  destruct (teams s !! teamId) as [team|] eqn:Hteam; [|done].
  destruct (bool_decide _); [done|].
  unfold bind at 1.
  pose proof (for_each_preserves (λ st, teams st = teams s)
    (λ member, updateProfile (m_userId member) (team_patch None false))
    (tm_members team)) as Hloop.
  specialize (Hloop (λ x st Hst, eq_trans (updateProfile_teams st _ _ _) Hst) s eq_refl).
  simpl in Hloop.
  destruct (for_each (tm_members team) _ s) as [[[]|e] s1];
    [|by eapply capacity_frame; [|exact H]].
  store_simpl. unfold bind, getDocs.
  set (P := λ st, teams st = teams s).
  match goal with |- context [for_each ?l (λ d, deleteDoc teamMembersC d.1) ?st] =>
    destruct (for_each_delete teamMembersC P l st) as [Hok2 HP2]; [done..|];
    destruct (for_each l (λ d, deleteDoc teamMembersC d.1) st) as [r2 s2] end.
  store_simpl. subst r2.
  match goal with |- context [for_each ?l (λ d, deleteDoc invitationsC d.1) ?st] =>
    destruct (for_each_delete invitationsC P l st) as [Hok3 HP3]; [done..|];
    destruct (for_each l (λ d, deleteDoc invitationsC d.1) st) as [r3 s3] end.
  store_simpl. subst r3. unfold deleteDoc. store_simpl.
  apply (capacity_delete s3 teamId). by eapply capacity_frame; [|exact H].
Qed.

Lemma capacity_untouched {A} (c : M A) :
  (∀ T, preserves (λ s, teams s = T) c) → preserves capacity_inv c.
Proof.
  intros Hc s Hs. eapply capacity_frame; [|exact Hs]. by apply (Hc (teams s)).
Qed.

Lemma createTeam_capacity (data : TeamInput) :
  1 <= ti_maxMembers data → preserves capacity_inv (createTeam data).
Proof.
  intros Hmax. unfold createTeam. keeps.
  intros s Hs. unfold addDoc. store_simpl. apply capacity_insert; [done|].
  unfold within_capacity. simpl. lia.
Qed.

Lemma updateTeam_capacity (teamId : string) (data : TeamPatch) :
  tp_members data = None → tp_maxMembers data = None →
  preserves capacity_inv (updateTeam teamId data).
Proof.
  intros Hm Hx. unfold updateTeam. keeps. intros s Hs. unfold updateDoc. store_simpl.
  destruct (teams s !! teamId) as [team|] eqn:Hteam; [|done]. store_simpl.
  apply capacity_insert; [done|]. specialize (Hs _ _ Hteam).
  unfold within_capacity in *. simpl. by rewrite Hm, Hx.
Qed.

Lemma head_query {A} (P : string → A → bool) (m : gmap string A) (id : string) (d : A) :
  head (filter (λ kv, P kv.1 kv.2 = true) (map_to_list m)) = Some (id, d) →
  m !! id = Some d ∧ P id d = true.
Proof.
  intros Hhead. assert (Hin : (id, d) ∈ filter (λ kv, P kv.1 kv.2 = true) (map_to_list m)).
  { destruct (filter _ _) as [|x l]; [done|]. injection Hhead as ->. by left. }
  apply list_elem_of_filter in Hin as [HP Hin]. by apply elem_of_map_to_list in Hin.
Qed.

Lemma deleteUserCompletely_capacity (userId : string) :
  preserves capacity_inv (deleteUserCompletely userId).
Proof.
  unfold deleteUserCompletely. intros s Hs. unfold bind at 1. unfold getDocs at 1.
  store_simpl. destruct (head _) as [[uid profile]|]; [|done].
  revert s Hs. apply preserves_bind; [|intros []; keeps].
  destruct (pr_teamId profile) as [[|a t]|]; try by apply preserves_ret.
  intros s Hs. unfold bind, getDocs. store_simpl.
  destruct (head _) as [[tid team]|] eqn:Hhead; [|done].
  pose proof (head_query (λ id (_ : Team), bool_decide (id = String a t))
                (teams s) tid team) as Hfound.
  simpl in Hfound. apply Hfound in Hhead as [Hteam ->%bool_decide_eq_true].
  clear Hfound.
  destruct (bool_decide (tm_leaderId team = userId)).
  - unfold deleteDoc. store_simpl. by apply capacity_delete.
  - unfold updateDoc. store_simpl. rewrite Hteam. store_simpl.
    apply capacity_insert; [done|]. specialize (Hs _ _ Hteam).
    unfold within_capacity in *. simpl.
    pose proof (length_filter (λ m, m_userId m ≠ userId) (tm_members team)). lia.
Qed.

Lemma store_after_capacity (c : Call) (s : Store) :
  respects_capacity c → capacity_inv s → capacity_inv (store_after c s).
Proof.
  destruct c; simpl; intros Hc Hs.
  - by apply (capacity_untouched _ (λ T, createProfile_teams T _ _)).
  - by apply (capacity_untouched _ (λ T, updateProfile_any_teams T _ _)).
  - by apply (capacity_untouched _ (λ T, createNotification_teams T _)).
  - by apply (capacity_untouched _ (λ T, createFeedPost_teams T _)).
  - by apply createTeam_capacity.
  - destruct Hc. by apply updateTeam_capacity.
  - by apply addTeamMember_capacity.
  - by apply removeTeamMember_capacity.
  - by apply terminateTeam_capacity.
  - by apply (capacity_untouched _ (λ T, sendInvitation_teams T _)).
  - by apply respondToInvitation_capacity.
  - by apply (capacity_untouched _ (λ T, getOrCreateConversation_teams T _ _)).
  - by apply (capacity_untouched _ (λ T, sendMessage_teams T _ _ _)).
  - by apply deleteUserCompletely_capacity.
Qed.

Lemma store_after_all_capacity (cs : list Call) (s : Store) :
  Forall respects_capacity cs → capacity_inv s → capacity_inv (store_after_all cs s).
Proof.
  unfold store_after_all. intros Hcs. revert s.
  induction Hcs as [|c cs Hc _ IH]; intros s Hs; [done|].
  simpl. apply IH. by apply store_after_capacity.
Qed.

Lemma empty_store_capacity (conf : bool) : capacity_inv (empty_store conf).
Proof. by intros t team Hteam. Qed.

Lemma demo_store_capacity : capacity_inv Demo.store.
Proof.
  intros t team Hteam. unfold Demo.store in Hteam. store_simpl.
  apply lookup_insert_Some in Hteam as [[_ <-]|[_ [_ <-]%lookup_singleton_Some]];
    unfold within_capacity; simpl; lia.
Qed.

(** C2, as the code has it. Whenever the members list of the team is at least
    maxMembers long, addTeamMember throws and writes nothing - with
    'Team is full', unless the earlier check already threw
    'User is already in a team' - and respondToInvitation with status
    'accepted' does the same for the team of the invitation, before the
    joining user is added. So no call grows a members list past maxMembers:
    when every team is within its capacity, every team is within its capacity
    after any writing call of the module, provided that a createTeam asks for
    maxMembers of 1 at least and that a patch of updateTeam leaves members and
    maxMembers alone. Hence a team's member count never exceeds its maxMembers
    in a database that such calls have built from an empty one. *)
Theorem capacity_never_exceeded (s : Store) :
  (configured s = true →
   (∀ teamId userId role team,
      teams s !! teamId = Some team → team_full team = true →
      ∃ msg, addTeamMember teamId userId role s = (Err msg, s) ∧
             (truthy (profiles s !! userId ≫= pr_teamId) = false →
              msg = "Team is full")) ∧
   (∀ invitationId teamId userId role invitation team,
      invitations s !! invitationId = Some invitation →
      teams s !! ii_teamId (inv_data invitation) = Some team →
      team_full team = true →
      ∃ msg, respondToInvitation invitationId accept teamId userId role s
               = (Err msg, s) ∧
             (truthy (profiles s !! joining_user (inv_data invitation) ≫= pr_teamId)
                = false →
              msg = "Team is full"))) ∧
  (capacity_inv s →
   ∀ c, respects_capacity c → capacity_inv (store_after c s)) ∧
  (∀ conf cs,
     Forall respects_capacity cs → s = store_after_all cs (empty_store conf) →
     capacity_inv s).
Proof.
  split_and!.
  - intros Hcfg. split.
    + intros teamId userId role team Hteam Hfull.
      destruct (addTeamMember_refused s teamId userId role Hcfg) as (Hbusy & _ & Hf).
      destruct (truthy (profiles s !! userId ≫= pr_teamId)) eqn:Hb.
      * eexists. split; [by apply Hbusy|done].
      * eexists. split; [by eapply Hf|done].
    + intros invitationId teamId userId role invitation team Hi Hteam Hfull.
      destruct (respondToInvitation_refused s invitationId teamId userId role Hcfg)
        as [_ Hfound].
      destruct (Hfound invitation Hi) as (Hbusy & _ & Hf).
      destruct (truthy (profiles s !! joining_user (inv_data invitation) ≫= pr_teamId))
        eqn:Hb.
      * eexists. split; [by apply Hbusy|done].
      * eexists. split; [by eapply Hf|done].
  - intros Hcap c Hc. by apply store_after_capacity.
  - intros conf cs Hcs ->.
    apply store_after_all_capacity; [done|apply empty_store_capacity].
Qed.

Lemma capacity_never_exceeded_witness :
  addTeamMember "t2" "alice" "Developer" Demo.store = (Err "Team is full", Demo.store) ∧
  capacity_inv (store_after (CreateTeam Demo.new_team) Demo.store) ∧
  capacity_inv
    (store_after_all
       [CreateProfile "alice" (mkProfilePatch (Some (Some "Alice")) None None None None None None);
        CreateProfile "bob" (mkProfilePatch (Some (Some "Bob")) None None None None None None);
        CreateTeam Demo.new_team;
        AddTeamMember "doc" "bob" "Developer"]
       (empty_store true)).
Proof.
  split_and!.
  - destruct (capacity_never_exceeded Demo.store) as [Hfull _].
    destruct Hfull as [Hadd _]; [reflexivity|].
    destruct (Hadd "t2" "alice" "Developer" Demo.team2) as (msg & Hrun & Hmsg).
    + vm_compute; reflexivity.
    + reflexivity.
    + rewrite Hrun, Hmsg; [reflexivity|]. vm_compute; reflexivity.
  - destruct (capacity_never_exceeded Demo.store) as (_ & Hkeep & _).
    apply Hkeep; [apply demo_store_capacity|]. simpl. lia.
  - destruct (capacity_never_exceeded
                (store_after_all
                   [CreateProfile "alice"
                      (mkProfilePatch (Some (Some "Alice")) None None None None None None);
                    CreateProfile "bob"
                      (mkProfilePatch (Some (Some "Bob")) None None None None None None);
                    CreateTeam Demo.new_team;
                    AddTeamMember "doc" "bob" "Developer"]
                   (empty_store true))) as (_ & _ & Hbuilt).
    refine (Hbuilt true _ _ eq_refl).
    repeat constructor. simpl. lia.
Defined.

(** C2 as stated fails in three places. Dave's team is full, yet adding Carol
    to it does not throw 'Team is full': the membership check comes first and
    throws 'User is already in a team'. And two calls do leave a team with more
    members than its maxMembers: createTeam with maxMembers 0 (the leader is
    a member all the same), and updateTeam with a members list of two for
    Dave's team of one seat. *)
Lemma capacity_not_unconditional :
  (teams Demo.store !! "t2" = Some Demo.team2 ∧
   team_full Demo.team2 = true ∧
   addTeamMember "t2" "carol" "Designer" Demo.store
     = (Err "User is already in a team", Demo.store) ∧
   addTeamMember "t2" "carol" "Designer" Demo.store
     ≠ (Err "Team is full", Demo.store)) ∧
  capacity_inv Demo.store ∧
  (∃ t team,
     createTeam (mkTeamInput "Ghosts" "No seat" "alice" 0 [] "forming") Demo.store
       = (Ok t, store_after
                  (CreateTeam (mkTeamInput "Ghosts" "No seat" "alice" 0 [] "forming"))
                  Demo.store) ∧
     teams (store_after
              (CreateTeam (mkTeamInput "Ghosts" "No seat" "alice" 0 [] "forming"))
              Demo.store) !! t = Some team ∧
     tm_maxMembers team = 0 ∧ length (tm_members team) = 1%nat ∧
     ¬ within_capacity team) ∧
  ¬ capacity_inv
      (store_after (CreateTeam (mkTeamInput "Ghosts" "No seat" "alice" 0 [] "forming"))
         Demo.store) ∧
  (∃ team,
     updateTeam "t2"
       (members_patch [mkEntry "dave" "Team Leader" "Dave";
                       mkEntry "alice" "Developer" "Alice"]) Demo.store
       = (Ok tt, store_after
                   (UpdateTeam "t2"
                      (members_patch [mkEntry "dave" "Team Leader" "Dave";
                                      mkEntry "alice" "Developer" "Alice"]))
                   Demo.store) ∧
     teams (store_after
              (UpdateTeam "t2"
                 (members_patch [mkEntry "dave" "Team Leader" "Dave";
                                 mkEntry "alice" "Developer" "Alice"]))
              Demo.store) !! "t2" = Some team ∧
     tm_maxMembers team = 1 ∧ length (tm_members team) = 2%nat ∧
     ¬ within_capacity team) ∧
  ¬ capacity_inv
      (store_after
         (UpdateTeam "t2"
            (members_patch [mkEntry "dave" "Team Leader" "Dave";
                            mkEntry "alice" "Developer" "Alice"]))
         Demo.store).
Proof.
  assert (Hrun : addTeamMember "t2" "carol" "Designer" Demo.store
                 = (Err "User is already in a team", Demo.store))
    by (vm_compute; reflexivity).
  assert (Hnew : ∃ t team,
     createTeam (mkTeamInput "Ghosts" "No seat" "alice" 0 [] "forming") Demo.store
       = (Ok t, store_after
                  (CreateTeam (mkTeamInput "Ghosts" "No seat" "alice" 0 [] "forming"))
                  Demo.store) ∧
     teams (store_after
              (CreateTeam (mkTeamInput "Ghosts" "No seat" "alice" 0 [] "forming"))
              Demo.store) !! t = Some team ∧
     tm_maxMembers team = 0 ∧ length (tm_members team) = 1%nat ∧
     ¬ within_capacity team).
  { exists "doc", (mkTeam "Ghosts" "No seat" "alice" "Alice" 0 [] "forming"
                     [mkEntry "alice" "Team Leader" "Alice"]).
    split_and!; [vm_compute; reflexivity..|]. unfold within_capacity. simpl. lia. }
  assert (Hset : ∃ team,
     updateTeam "t2"
       (members_patch [mkEntry "dave" "Team Leader" "Dave";
                       mkEntry "alice" "Developer" "Alice"]) Demo.store
       = (Ok tt, store_after
                   (UpdateTeam "t2"
                      (members_patch [mkEntry "dave" "Team Leader" "Dave";
                                      mkEntry "alice" "Developer" "Alice"]))
                   Demo.store) ∧
     teams (store_after
              (UpdateTeam "t2"
                 (members_patch [mkEntry "dave" "Team Leader" "Dave";
                                 mkEntry "alice" "Developer" "Alice"]))
              Demo.store) !! "t2" = Some team ∧
     tm_maxMembers team = 1 ∧ length (tm_members team) = 2%nat ∧
     ¬ within_capacity team).
  { exists (mkTeam "Solo" "A full team" "dave" "Dave" 1 [] "forming"
              [mkEntry "dave" "Team Leader" "Dave"; mkEntry "alice" "Developer" "Alice"]).
    split_and!; [vm_compute; reflexivity..|]. unfold within_capacity. simpl. lia. }
  split_and!.
  - vm_compute; reflexivity.
  - reflexivity.
  - exact Hrun.
  - rewrite Hrun. discriminate.
  - apply demo_store_capacity.
  - exact Hnew.
  - destruct Hnew as (t & team & _ & Hteam & _ & _ & Hover).
    intros Hcap. apply Hover. by eapply Hcap.
  - exact Hset.
  - destruct Hset as (team & _ & Hteam & _ & _ & Hover).
    intros Hcap. apply Hover. by eapply Hcap.
Qed.

(** ** Conversations *)

(** Finding a document of a query result. *)
Lemma find_query_Some {A} (P Q : A → bool) (m : gmap string A) (d : string * A) :
  List.find (λ d, Q d.2) (filter (λ kv, P kv.2 = true) (map_to_list m)) = Some d →
  m !! d.1 = Some d.2 ∧ P d.2 = true ∧ Q d.2 = true.
Proof.
  intros [Hin HQ]%find_some. apply list_elem_of_In, list_elem_of_filter in Hin.
  destruct Hin as [HP Hin]. destruct d as [id x]. by apply elem_of_map_to_list in Hin.
Qed.

Lemma find_query_None {A} (P Q : A → bool) (m : gmap string A) :
  List.find (λ d, Q d.2) (filter (λ kv, P kv.2 = true) (map_to_list m)) = None →
  ∀ id x, m !! id = Some x → P x = true → Q x = false.
Proof.
  intros Hnone id x Hx HP. apply (find_none _ _ Hnone (id, x)).
  apply list_elem_of_In, list_elem_of_filter. split; [done|].
  by apply elem_of_map_to_list.
Qed.

Lemma getOrCreateConversation_run (s : Store) (user1Id user2Id : string) :
  configured s = true →
  getOrCreateConversation user1Id user2Id s =
  match List.find (λ d, includes user2Id (cv_participants d.2))
          (filter (λ kv, includes user1Id (cv_participants kv.2) = true)
             (map_to_list (conversations s))) with
  | Some existing => (Ok existing.1, s)
  | None =>
      (Ok (autoId (conversations s)),
       with_tbl conversationsC
         (<[autoId (conversations s) := new_conversation s user1Id user2Id]>
            (conversations s)) s)
  end.
Proof.
  intros Hcfg. unfold getOrCreateConversation. rewrite guarded_run by done.
  unfold bind, getDocs. store_simpl. destruct (List.find _ _); [done|].
  by rewrite !getProfile_run.
Qed.

Lemma getOrCreateConversation_found (s : Store) (user1Id user2Id id : string) :
  configured s = true →
  (getOrCreateConversation user1Id user2Id s).1 = Ok id →
  configured (getOrCreateConversation user1Id user2Id s).2 = true ∧
  ∃ c, conversations (getOrCreateConversation user1Id user2Id s).2 !! id = Some c ∧
       is_pair_conversation user1Id user2Id c.
Proof.
  intros Hcfg. rewrite getOrCreateConversation_run by done.
  destruct (List.find _ _) as [[id' c]|] eqn:Hfind; store_simpl; intros [= <-].
  - split; [done|]. apply (find_query_Some (λ c, includes user1Id (cv_participants c))
             (λ c, includes user2Id (cv_participants c))) in Hfind
      as (Hc & H1 & H2). simpl in *.
    exists c. split; [done|]. split; by eapply bool_decide_eq_true_1.
  - split; [done|]. eexists. rewrite lookup_insert_eq. split; [done|].
    split; simpl; set_solver.
Qed.

(** The second of two successive calls finds the conversation of the first. *)
Lemma getOrCreateConversation_again (s : Store) (user1Id user2Id : string) :
  configured s = true →
  let first := getOrCreateConversation user1Id user2Id s in
  getOrCreateConversation user1Id user2Id first.2 = (first.1, first.2).
Proof.
  intros Hcfg first. subst first.
  rewrite (getOrCreateConversation_run s) by done.
  destruct (List.find _ _) as [[id c]|] eqn:Hfind; store_simpl.
  - rewrite getOrCreateConversation_run by done. by rewrite Hfind.
  - pose proof (find_query_None (λ c, includes user1Id (cv_participants c))
                  (λ c, includes user2Id (cv_participants c)) _ Hfind) as Hnone.
    rewrite getOrCreateConversation_run by done. store_simpl.
    set (nid := autoId (conversations s)).
    set (newc := new_conversation s user1Id user2Id).
    match goal with |- context [List.find ?f ?l] =>
      destruct (List.find f l) as [[id c]|] eqn:Hfind2 end.
    + apply (find_query_Some (λ c, includes user1Id (cv_participants c))
               (λ c, includes user2Id (cv_participants c))) in Hfind2
        as (Hc & H1 & H2). simpl in *.
      apply lookup_insert_Some in Hc as [[<- <-]|[_ Hc]]; [done|].
      rewrite (Hnone id c Hc H1) in H2. done.
    + pose proof (find_query_None (λ c, includes user1Id (cv_participants c))
                    (λ c, includes user2Id (cv_participants c)) _ Hfind2 nid newc)
        as Hnew.
      rewrite lookup_insert_eq in Hnew. specialize (Hnew eq_refl).
      unfold includes in Hnew. subst newc. simpl in Hnew.
      rewrite bool_decide_eq_true_2 in Hnew by set_solver.
      specialize (Hnew eq_refl). apply bool_decide_eq_false_1 in Hnew.
      exfalso. apply Hnew. set_solver.
Qed.

Lemma pair_conversations_lookup (a b : string) (s : Store) (id : string)
    (c : Conversation) :
  pair_conversations a b s !! id = Some c ↔
  conversations s !! id = Some c ∧ is_pair_conversation a b c.
Proof. unfold pair_conversations. by rewrite map_lookup_filter_Some. Qed.

(** C9. getOrCreateConversation is idempotent. If a conversation with both
    users exists, the call returns the id of such a conversation and creates
    nothing; a second call with the same pair returns the id the first one
    returned and leaves the store as the first left it; and when the pair had
    at most one conversation before, it has exactly one afterwards. *)
Theorem getOrCreateConversation_idempotent (s : Store) (user1Id user2Id : string) :
  configured s = true →
  let first := getOrCreateConversation user1Id user2Id s in
  let second := getOrCreateConversation user1Id user2Id first.2 in
  (∀ id c,
     conversations s !! id = Some c → is_pair_conversation user1Id user2Id c →
     ∃ id' c', first = (Ok id', s) ∧ conversations s !! id' = Some c' ∧
               is_pair_conversation user1Id user2Id c') ∧
  (∃ id c, first.1 = Ok id ∧ second = (Ok id, first.2) ∧
           conversations first.2 !! id = Some c ∧
           is_pair_conversation user1Id user2Id c) ∧
  ((size (pair_conversations user1Id user2Id s) ≤ 1)%nat →
   size (pair_conversations user1Id user2Id first.2) = 1%nat ∧
   size (pair_conversations user1Id user2Id second.2) = 1%nat).
Proof.
  intros Hcfg first second.
  pose proof (getOrCreateConversation_again s user1Id user2Id Hcfg) as Hagain.
  fold first in Hagain. simpl in Hagain. fold second in Hagain.
  assert (Hrun := getOrCreateConversation_run s user1Id user2Id Hcfg).
  fold first in Hrun.
  assert (Hid : ∃ id, first.1 = Ok id).
  { rewrite Hrun. destruct (List.find _ _); by eexists. }
  destruct Hid as [id Hid].
  destruct (getOrCreateConversation_found s user1Id user2Id id Hcfg Hid)
    as (_ & c & Hc & Hpair). fold first in Hc.
  split_and!.
  - intros id0 c0 Hc0 [H1 H2]. rewrite Hrun.
    destruct (List.find _ _) as [[id' c']|] eqn:Hfind.
    + apply (find_query_Some (λ c, includes user1Id (cv_participants c))
               (λ c, includes user2Id (cv_participants c))) in Hfind
        as (Hc' & H1' & H2'). simpl in *.
      exists id', c'. split; [done|]. split; [done|].
      split; by eapply bool_decide_eq_true_1.
    + pose proof (find_query_None (λ c, includes user1Id (cv_participants c))
                    (λ c, includes user2Id (cv_participants c)) _ Hfind id0 c0 Hc0)
        as Hnone.
      unfold includes in Hnone. rewrite bool_decide_eq_true_2 in Hnone by done.
      specialize (Hnone eq_refl). by apply bool_decide_eq_false_1 in Hnone.
  - exists id, c. rewrite Hagain, Hid. done.
  - intros Hsize. rewrite Hagain. simpl. split; [|]; revert Hid Hc; rewrite Hrun.
    all: destruct (List.find _ _) as [[id' c']|] eqn:Hfind; store_simpl.
    all: intros [= <-] Hc.
    1,3: assert (size (pair_conversations user1Id user2Id s) ≠ 0%nat);
         [apply (map_size_ne_0_lookup_2 _ id'); exists c;
          by apply pair_conversations_lookup|lia].
    all: unfold pair_conversations; store_simpl.
    all: rewrite map_filter_insert_True by (split; simpl; set_solver).
    all: rewrite map_size_insert_None;
      [|apply map_lookup_filter_None; left; apply autoId_fresh].
    all: assert (Hempty : filter
             (λ kv : string * Conversation,
                user1Id ∈ cv_participants kv.2 ∧ user2Id ∈ cv_participants kv.2)
             (conversations s) = ∅);
      [|by rewrite Hempty, map_size_empty].
    all: apply map_empty; intros i; apply map_lookup_filter_None; right.
    all: intros c0 Hc0 [H1 H2]; simpl in *.
    all: pose proof (find_query_None (λ c, includes user1Id (cv_participants c))
                    (λ c, includes user2Id (cv_participants c)) _ Hfind i c0 Hc0)
        as Hnone.
    all: unfold includes in Hnone; rewrite bool_decide_eq_true_2 in Hnone by done.
    all: specialize (Hnone eq_refl); by apply bool_decide_eq_false_1 in Hnone.
Qed.

Lemma getOrCreateConversation_idempotent_witness :
  (∃ id, getOrCreateConversation "alice" "bob" Demo.store = (Ok id, Demo.store)) ∧
  size (pair_conversations "alice" "carol"
          (getOrCreateConversation "alice" "carol" Demo.store).2) = 1%nat.
Proof.
  destruct (getOrCreateConversation_idempotent Demo.store "alice" "bob" eq_refl)
    as (Hfound & _ & _).
  destruct (getOrCreateConversation_idempotent Demo.store "alice" "carol" eq_refl)
    as (_ & _ & Hone).
  split.
  - destruct (Hfound "c1" Demo.chat) as (id & c & Hrun & _).
    + vm_compute; reflexivity.
    + split; simpl; repeat constructor.
    + exists id. exact Hrun.
  - apply Hone. vm_compute. apply le_0_n.
Defined.

(** ** The invariants along the runs of the application *)

Lemma createProfile_inv (s : Store) (userId : string) (data : ProfilePatch) :
  userId ≠ "" → membership_inv s → membership_inv (createProfile userId data s).2.
Proof.
  intros Hne H. unfold createProfile, guarded. destruct (configured s); [|done].
  unfold setDoc. store_simpl. apply (inv_set_profile s userId _ H Hne).
  intros t. simpl. discriminate.
Qed.

Lemma sendInvitation_inv (s : Store) (data : InvitationInput) :
  membership_inv s → membership_inv (sendInvitation data s).2.
Proof.
  intros H. destruct (configured s) eqn:Hcfg;
    [|by unfold sendInvitation; rewrite guarded_off].
  rewrite sendInvitation_run by done. destruct (truthy _); [done|].
  destruct (filter _ _); [|done]. by eapply membership_frame; [..|exact H].
Qed.

(** In every reachable store each user's teamId is null or references exactly
    one team, which lists the user as a member. *)
Lemma reachable_membership (s : Store) : reachable s → membership_inv s.
Proof.
  induction 1 as [c| | | | | | |].
  - apply membership_inv_intro; [done|]. intros u p t Hp. store_simpl.
    by rewrite lookup_empty in Hp.
  - by apply createProfile_inv.
  - by apply createTeam_inv.
  - by apply addTeamMember_inv.
  - by apply removeTeamMember_inv.
  - by apply terminateTeam_inv.
  - by apply sendInvitation_inv.
  - by apply respondToInvitation_inv.
Qed.

Corollary reachable_one_team (s : Store) : reachable s → one_team s.
Proof. intros H. by destruct (reachable_membership s H) as (_ & _ & ?). Qed.

(** ** An unconfigured Firebase *)

(** The functions that start with the [isFirebaseConfigured()] test return
    their neutral value and leave the store alone. *)
Lemma unconfigured_is_noop (s : Store) :
  configured s = false →
  (∀ userId, getProfile userId s = (Ok None, s)) ∧
  (∀ userId data, createProfile userId data s = (Ok tt, s)) ∧
  (∀ userId data, updateProfile userId data s = (Ok tt, s)) ∧
  (∀ data, createTeam data s = (Ok "", s)) ∧
  (∀ teamId, getTeam teamId s = (Ok None, s)) ∧
  (∀ userId, getUserTeams userId s = (Ok [], s)) ∧
  (∀ teamId data, updateTeam teamId data s = (Ok tt, s)) ∧
  (∀ teamId userId role, addTeamMember teamId userId role s = (Ok tt, s)) ∧
  (∀ teamId userId, removeTeamMember teamId userId s = (Ok tt, s)) ∧
  (∀ teamId leaderId, terminateTeam teamId leaderId s = (Ok tt, s)) ∧
  (∀ data, sendInvitation data s = (Ok tt, s)) ∧
  (∀ invitationId status teamId userId role,
     respondToInvitation invitationId status teamId userId role s = (Ok tt, s)) ∧
  (∀ data, createNotification data s = (Ok tt, s)) ∧
  (∀ data, createFeedPost data s = (Ok "", s)) ∧
  getAvailableUsersCount s = (Ok 0%nat, s) ∧
  (∀ user1Id user2Id, getOrCreateConversation user1Id user2Id s = (Ok "", s)) ∧
  (∀ conversationId senderId text,
     sendMessage conversationId senderId text s = (Ok "", s)) ∧
  (∀ username excludeUserId,
     isUsernameAvailable username excludeUserId s = (Ok true, s)).
Proof.
  intros Hoff. split_and!; intros; by apply guarded_off.
Qed.

(** C10 at its failing input. [deleteUserCompletely] has no
    [isFirebaseConfigured()] test: on an unconfigured store its Firestore
    calls are issued all the same, here deleting Alice's profile, whereas the
    guarded [removeTeamMember] returns at once. *)
Theorem deleteUserCompletely_unguarded :
  configured Demo.offline = false ∧
  removeTeamMember "t1" "alice" Demo.offline = (Ok tt, Demo.offline) ∧
  (deleteUserCompletely "alice" Demo.offline).1 = Ok tt ∧
  profiles Demo.offline !! "alice" = Some Demo.alice ∧
  profiles (deleteUserCompletely "alice" Demo.offline).2 !! "alice" = None ∧
  deleteUserCompletely "alice" Demo.offline ≠ (Ok tt, Demo.offline).
Proof.
  split_and!; [reflexivity|reflexivity|vm_compute; reflexivity..|].
  intros Heq. apply (f_equal (λ r, profiles r.2 !! "alice")) in Heq.
  vm_compute in Heq. discriminate.
Qed.

(** * Properties of the rest of the module *)

(** ** Queries and loops over a collection *)

#[global] Instance profilesC_lawful : LawfulColl profilesC.
Proof. split; [done|done|by intros []]. Qed.
#[global] Instance teamsC_lawful : LawfulColl teamsC.
Proof. split; [done|done|by intros []]. Qed.
#[global] Instance teamMembersC_lawful : LawfulColl teamMembersC.
Proof. split; [done|done|by intros []]. Qed.
#[global] Instance invitationsC_lawful : LawfulColl invitationsC.
Proof. split; [done|done|by intros []]. Qed.
#[global] Instance notificationsC_lawful : LawfulColl notificationsC.
Proof. split; [done|done|by intros []]. Qed.
#[global] Instance postsC_lawful : LawfulColl postsC.
Proof. split; [done|done|by intros []]. Qed.
#[global] Instance conversationsC_lawful : LawfulColl conversationsC.
Proof. split; [done|done|by intros []]. Qed.
#[global] Instance messagesC_lawful : LawfulColl messagesC.
Proof. split; [done|done|by intros []]. Qed.

Lemma elem_of_query {A} (P : string → A → bool) (m : gmap string A) id d :
  (id, d) ∈ query_docs P m ↔ m !! id = Some d ∧ P id d = true.
Proof.
  unfold query_docs. rewrite list_elem_of_filter, elem_of_map_to_list. simpl. tauto.
Qed.

Lemma query_NoDup {A} (P : string → A → bool) (m : gmap string A) :
  NoDup (query_docs P m).*1.
Proof.
  unfold query_docs. apply (sublist_NoDup _ (map_to_list m).*1); [apply NoDup_fst_map_to_list|].
  apply fmap_sublist, sublist_filter.
Qed.

Lemma getDocs_run {A} (c : Coll A) (P : string → A → bool) (s : Store) :
  getDocs c P s = (Ok (query_docs P (tbl c s)), s).
Proof. done. Qed.

(** Counting the documents of a query when one document is added or
    replaced. *)
Lemma query_count_insert {A} (P : string → A → bool) (m : gmap string A) i x :
  m !! i = None →
  length (query_docs P (<[i := x]> m))
  = ((if P i x then 1 else 0) + length (query_docs P m))%nat.
Proof.
  intros Hi. unfold query_docs. rewrite (map_to_list_insert m i x Hi).
  rewrite filter_cons. simpl. destruct (P i x); by case_decide.
Qed.

Lemma query_count_replace {A} (P : string → A → bool) (m : gmap string A) i old x :
  m !! i = Some old →
  (length (query_docs P (<[i := x]> m)) + (if P i old then 1 else 0)
   = (if P i x then 1 else 0) + length (query_docs P m))%nat.
Proof.
  intros Hi. rewrite <- (insert_delete_eq m i x).
  rewrite query_count_insert by apply lookup_delete_eq.
  rewrite <- (insert_id m i old Hi) at 2. rewrite <- (insert_delete_eq m i old).
  rewrite (query_count_insert P (delete i m) i old) by apply lookup_delete_eq. lia.
Qed.

(** A loop of [deleteDoc] over documents of one collection. *)
Lemma for_each_delete_run {A} (c : Coll A) `{!LawfulColl c}
    (l : list (string * A)) (s : Store) :
  for_each l (λ d, deleteDoc c d.1) s =
  (Ok tt, with_tbl c (foldl (λ m d, delete d.1 m) (tbl c s) l) s).
Proof.
  revert s. induction l as [|d l IH]; intros s; simpl.
  - by rewrite with_tbl_tbl.
  - unfold bind, deleteDoc at 1. rewrite IH.
    by rewrite tbl_with_tbl, with_tbl_with_tbl.
Qed.

Lemma lookup_foldl_delete {A} (l : list (string * A)) (m : gmap string A) i :
  foldl (λ m d, delete d.1 m) m l !! i
  = if decide (i ∈ l.*1) then None else m !! i.
Proof.
  revert m. induction l as [|d l IH]; intros m; [done|].
  cbn [foldl]. rewrite IH, fmap_cons. destruct (decide (i = d.1)) as [->|Hne].
    + rewrite lookup_delete_eq, (decide_True (P := d.1 ∈ d.1 :: l.*1)) by left.
      by case_decide.
    + rewrite lookup_delete_ne by done. destruct (decide (i ∈ l.*1)) as [Hin|Hin].
      * rewrite decide_True; [done|by right].
      * rewrite decide_False; [done|]. by intros [?|?]%elem_of_cons.
Qed.

(** A loop of [updateDoc] over documents that exist. *)
Lemma for_each_update_run {A} (c : Coll A) `{!LawfulColl c} (f : A → A)
    (l : list (string * A)) (s : Store) :
  (∀ d, d ∈ l → is_Some (tbl c s !! d.1)) →
  for_each l (λ d, updateDoc c d.1 f) s =
  (Ok tt, with_tbl c (foldl (λ m d, alter f d.1 m) (tbl c s) l) s).
Proof.
  revert s. induction l as [|d l IH]; intros s Hall; simpl.
  - by rewrite with_tbl_tbl.
  - unfold bind, updateDoc at 1.
    destruct (Hall d) as [x Hx]; [left|]. rewrite Hx.
    rewrite IH.
    + rewrite tbl_with_tbl, with_tbl_with_tbl. do 3 f_equal.
      apply map_eq. intros j. destruct (decide (d.1 = j)) as [<-|Hne].
      * by rewrite lookup_insert_eq, lookup_alter_eq, Hx.
      * by rewrite lookup_insert_ne, lookup_alter_ne.
    + intros d' Hd'. rewrite tbl_with_tbl.
      destruct (decide (d.1 = d'.1)) as [<-|Hne].
      * rewrite lookup_insert_eq. by eexists.
      * rewrite lookup_insert_ne by done. apply Hall. by right.
Qed.

Lemma lookup_foldl_alter {A} (f : A → A) (l : list (string * A))
    (m : gmap string A) i :
  NoDup l.*1 →
  foldl (λ m d, alter f d.1 m) m l !! i
  = if decide (i ∈ l.*1) then f <$> m !! i else m !! i.
Proof.
  revert m. induction l as [|d l IH]; intros m Hnd; [done|].
  rewrite fmap_cons in Hnd. apply NoDup_cons in Hnd as [Hd Hnd].
  cbn [foldl]. rewrite IH, fmap_cons by done.
    destruct (decide (i = d.1)) as [->|Hne].
    + rewrite lookup_alter_eq, (decide_True (P := d.1 ∈ d.1 :: l.*1)) by left.
      by rewrite decide_False.
    + rewrite lookup_alter_ne by done. destruct (decide (i ∈ l.*1)) as [Hin|Hin].
      * rewrite decide_True; [done|by right].
      * rewrite decide_False; [done|]. by intros [?|?]%elem_of_cons.
Qed.
